(** * SSE hello feed: stream emitter (pages/api/hello.ts) and stream client
      (components/HelloWorld.tsx)

    The server handler and the client component are embedded as state
    transformers.  Everything the code takes from its runtime (the clock,
    [Date.prototype.toISOString], [JSON.stringify], [JSON.parse], whether a
    write on the response or the [EventSource] constructor throws,
    [Math.random]) is an explicit input of the model. *)

From Stdlib Require Import Ascii String ZArith QArith Qminmax Qpower Qround Lia Lqa.
From stdpp Require Import base option list strings pretty.

(** ** Shared wire contract *)

(** [HelloWorldData] of both source files. *)
Record HelloWorldData := mkHello { message : string; timestamp : string }.

(** A value as [JSON.parse] returns it.  The client keeps whatever value it
    gets: the annotation [HelloWorldData] (line 59 of the component) is
    erased at run time. *)
#[warnings="-register-all"]
Inductive Json :=
| JNull
| JBool (b : bool)
| JNumber (x : Q)
| JString (s : string)
| JArray (items : list Json)
| JObject (fields : list (string * Json)).

(** The JSON value of a [HelloWorldData]. *)
Definition json_value (d : HelloWorldData) : Json :=
  JObject [("message", JString (message d)); ("timestamp", JString (timestamp d))].



(** The line feed of the template literals. *)
Definition LF : string := String "010"%char EmptyString.

(** ** Stream emitter: pages/api/hello.ts *)

(** The two [setInterval] handles of the handler. *)
Inductive TimerHandle := interval | heartbeat.

(** The events the handler subscribes to: [req.on('close')], [req.on('end')],
    [res.on('error')]. *)
Inductive Signal := req_close | req_end | res_error.

(** The three places of the handler that call [res.write]. *)
Inductive Writer := in_handler | in_interval | in_heartbeat.

(** What the handler takes from Node: the rendering of an instant
    (milliseconds since the epoch) by [toISOString], [JSON.stringify] on a
    [HelloWorldData], whether the [res.write] issued from a given place at
    a given instant throws, and, for an instant at which both timers expire,
    whether the timer queue runs the heartbeat callback before the data
    callback. *)
Class Runtime := {
  toISOString : Z -> string;
  JSON_stringify : HelloWorldData -> string;
  write_throws : Writer -> Z -> bool;
  heartbeat_first : Z -> bool
}.

(** One request: the response object ([statusCode], [headers], the chunks
    passed to the sink in order, [finished] once [res.end] ran), the virtual
    clock, the next expiry of each interval timer ([None]: never created or
    cleared) and the registered listeners, oldest first.  Every listener of
    the source has the shape [() => clearInterval(h)]; it is recorded as the
    event name with [h]. *)
Record Connection := mkConnection {
  statusCode : option nat;
  headers : list (string * list string);
  written : list string;
  finished : bool;
  clock : Z;
  interval_due : option Z;
  heartbeat_due : option Z;
  listeners : list (Signal * TimerHandle)
}.

Definition fresh (t0 : Z) : Connection :=
  mkConnection None [] [] false t0 None None [].

Definition with_status (s : nat) (c : Connection) : Connection :=
  mkConnection (Some s) (headers c) (written c) (finished c) (clock c)
    (interval_due c) (heartbeat_due c) (listeners c).

Definition with_headers (h : list (string * list string)) (c : Connection) : Connection :=
  mkConnection (statusCode c) h (written c) (finished c) (clock c)
    (interval_due c) (heartbeat_due c) (listeners c).

Definition with_written (w : list string) (c : Connection) : Connection :=
  mkConnection (statusCode c) (headers c) w (finished c) (clock c)
    (interval_due c) (heartbeat_due c) (listeners c).

Definition with_finished (b : bool) (c : Connection) : Connection :=
  mkConnection (statusCode c) (headers c) (written c) b (clock c)
    (interval_due c) (heartbeat_due c) (listeners c).

Definition with_clock (t : Z) (c : Connection) : Connection :=
  mkConnection (statusCode c) (headers c) (written c) (finished c) t
    (interval_due c) (heartbeat_due c) (listeners c).

Definition with_listeners (l : list (Signal * TimerHandle)) (c : Connection) : Connection :=
  mkConnection (statusCode c) (headers c) (written c) (finished c) (clock c)
    (interval_due c) (heartbeat_due c) l.

Definition due (h : TimerHandle) (c : Connection) : option Z :=
  match h with
  | interval => interval_due c
  | heartbeat => heartbeat_due c
  end.

Definition with_due (h : TimerHandle) (d : option Z) (c : Connection) : Connection :=
  match h with
  | interval =>
      mkConnection (statusCode c) (headers c) (written c) (finished c) (clock c)
        d (heartbeat_due c) (listeners c)
  | heartbeat =>
      mkConnection (statusCode c) (headers c) (written c) (finished c) (clock c)
        (interval_due c) d (listeners c)
  end.

(** [res.setHeader(name, values)]. *)
Definition setHeader (name : string) (values : list string) (c : Connection) : Connection :=
  with_headers (headers c ++ [(name, values)]) c.

(** [res.writeHead(status, headers)]. *)
Definition writeHead (s : nat) (h : list (string * string)) (c : Connection) : Connection :=
  with_headers (headers c ++ map (fun kv => (fst kv, [snd kv])) h) (with_status s c).

(** [res.end(body)]. *)
Definition res_end (body : string) (c : Connection) : Connection :=
  with_finished true (with_written (written c ++ [body]) c).

(** [setInterval(cb, period)]: first expiry one period from now. *)
Definition setInterval (h : TimerHandle) (period : Z) (c : Connection) : Connection :=
  with_due h (Some (clock c + period)%Z) c.

(** [clearInterval(h)]: total, and nothing happens on a cleared handle. *)
Definition clearInterval (h : TimerHandle) (c : Connection) : Connection :=
  with_due h None c.

(** [emitter.on(name, () => clearInterval(h))]. *)
Definition on (s : Signal) (h : TimerHandle) (c : Connection) : Connection :=
  with_listeners (listeners c ++ [(s, h)]) c.

Definition Signal_eqb (a b : Signal) : bool :=
  match a, b with
  | req_close, req_close | req_end, req_end | res_error, res_error => true
  | _, _ => false
  end.

(** Both timers are cleared (or were never created). *)
Definition silent (c : Connection) : Prop :=
  interval_due c = None /\ heartbeat_due c = None.

Inductive Outcome := Returned (c : Connection) | Threw (c : Connection).

Definition connection_of (o : Outcome) : Connection :=
  match o with Returned c | Threw c => c end.

Section Emitter.
Context `{Runtime}.

(** [res.write(chunk)] from the place [who]: [None] when it throws. *)
Definition res_write (who : Writer) (chunk : string) (c : Connection) : option Connection :=
  if write_throws who (clock c) then None
  else Some (with_written (written c ++ [chunk]) c).

(** [`data: ${JSON.stringify(data)}\n\n`]. *)
Definition data_frame (d : HelloWorldData) : string :=
  "data: " +:+ JSON_stringify d +:+ LF +:+ LF.

(** [': heartbeat\n\n']. *)
Definition heartbeat_frame : string := ": heartbeat" +:+ LF +:+ LF.

(** The callback of the 5000 ms timer (lines 38-52). *)
Definition interval_callback (c : Connection) : Connection :=
  let data := mkHello "Hello World" (toISOString (clock c)) in
  match res_write in_interval (data_frame data) c with
  | Some c' => c'
  | None => clearInterval interval c
  end.

(** The callback of the 30000 ms timer (lines 72-80). *)
Definition heartbeat_callback (c : Connection) : Connection :=
  match res_write in_heartbeat heartbeat_frame c with
  | Some c' => c'
  | None => clearInterval interval (clearInterval heartbeat c)
  end.

(** The handler body (lines 8-86) for a request with method [method] arriving
    at instant [t0].  The initial write is outside any [try]: when it throws,
    so does the handler, before a timer or listener exists. *)
Definition handler (method : string) (t0 : Z) : Outcome :=
  let c := fresh t0 in
  if negb (String.eqb method "GET") then
    let c := setHeader "Allow" ["GET"] c in
    Returned (res_end ("Method " +:+ method +:+ " Not Allowed") (with_status 405 c))
  else
    let c := writeHead 200
      [("Content-Type", "text/event-stream");
       ("Cache-Control", "no-cache, no-transform");
       ("Connection", "keep-alive");
       ("Access-Control-Allow-Origin", "*");
       ("Access-Control-Allow-Headers", "Cache-Control");
       ("Access-Control-Allow-Methods", "GET")] c in
    let initialData := mkHello "Hello World - Connected!" (toISOString (clock c)) in
    match res_write in_handler (data_frame initialData) c with
    | None => Threw c
    | Some c =>
        let c := setInterval interval 5000 c in
        let c := on req_close interval c in
        let c := on req_end interval c in
        let c := on res_error interval c in
        let c := setInterval heartbeat 30000 c in
        let c := on req_close heartbeat c in
        Returned c
    end.

(** An expired interval timer is re-armed one period later and its callback
    runs; a [clearInterval] inside the callback wins over the re-arming. *)
Definition fire (h : TimerHandle) (period : Z) (cb : Connection -> Connection)
    (c : Connection) : Connection :=
  match due h c with
  | Some d => if (d <=? clock c)%Z then cb (with_due h (Some (d + period)%Z) c) else c
  | None => c
  end.

(** One millisecond of the virtual clock.  The source does not fix the order
    of two callbacks that expire at the same instant; the runtime does. *)
Definition tick (c : Connection) : Connection :=
  let c := with_clock (clock c + 1)%Z c in
  if heartbeat_first (clock c) then
    fire interval 5000 interval_callback (fire heartbeat 30000 heartbeat_callback c)
  else
    fire heartbeat 30000 heartbeat_callback (fire interval 5000 interval_callback c).

(** [n] consecutive milliseconds. *)
Fixpoint advance (n : nat) (c : Connection) : Connection :=
  match n with
  | O => c
  | S n' => advance n' (tick c)
  end.

(** Advancing the virtual clock by [ms] milliseconds. *)
Definition elapse (ms : Z) (c : Connection) : Connection :=
  advance (Z.to_nat ms) c.

(** Emitting [s] runs the listeners registered for it, oldest first. *)
Definition emit (s : Signal) (c : Connection) : Connection :=
  fold_left (fun c l => if Signal_eqb (fst l) s then clearInterval (snd l) c else c)
    (listeners c) c.

(** What happens to a connection after the handler returned. *)
Inductive Event := Elapse (ms : Z) | Emit (s : Signal).

Definition react (c : Connection) (e : Event) : Connection :=
  match e with
  | Elapse ms => elapse ms c
  | Emit s => emit s c
  end.

Definition run (es : list Event) (c : Connection) : Connection :=
  fold_left react es c.

(** Whether timer [h] is armed, and how many events of a trace take it from
    armed to cleared. *)
Definition armed (h : TimerHandle) (c : Connection) : bool :=
  match due h c with Some _ => true | None => false end.

Fixpoint cancellations (h : TimerHandle) (es : list Event) (c : Connection) : nat :=
  match es with
  | [] => 0
  | e :: es' =>
      let c' := react c e in
      (if armed h c && negb (armed h c') then 1 else 0) + cancellations h es' c'
  end.

End Emitter.

(** A concrete runtime: the sink never throws, the heartbeat runs first
    when both timers expire together, instants are rendered as ISO-8601 UTC
    (proleptic Gregorian calendar; years outside 0000 to 9999 in the expanded
    form with a sign and six digits) and the two fields are serialised in
    declaration order, escaping the quote and the backslash. *)
Fixpoint digits (w : nat) (n : Z) : string :=
  match w with
  | O => EmptyString
  | S w' => digits w' (n / 10)%Z +:+
            String (Ascii.ascii_of_nat (48 + Z.to_nat (n mod 10)%Z)) EmptyString
  end.

Definition iso8601 (ms : Z) : string :=
  let days := (ms / 86400000)%Z in
  let rest := (ms mod 86400000)%Z in
  let z := (days + 719468)%Z in
  let era := (z / 146097)%Z in
  let doe := (z - era * 146097)%Z in
  let yoe := ((doe - doe / 1460 + doe / 36524 - doe / 146096) / 365)%Z in
  let doy := (doe - (365 * yoe + yoe / 4 - yoe / 100))%Z in
  let mp := ((5 * doy + 2) / 153)%Z in
  let d := (doy - (153 * mp + 2) / 5 + 1)%Z in
  let m := (if (mp <? 10)%Z then mp + 3 else mp - 9)%Z in
  let y := (yoe + era * 400 + (if (m <=? 2)%Z then 1 else 0))%Z in
  (if (0 <=? y)%Z && (y <=? 9999)%Z then digits 4 y
   else (if (y <? 0)%Z then "-" else "+") +:+ digits 6 (Z.abs y)) +:+
  "-" +:+ digits 2 m +:+ "-" +:+ digits 2 d +:+ "T" +:+
  digits 2 (rest / 3600000)%Z +:+ ":" +:+ digits 2 ((rest / 60000) mod 60)%Z +:+ ":" +:+
  digits 2 ((rest / 1000) mod 60)%Z +:+ "." +:+ digits 3 (rest mod 1000)%Z +:+ "Z".

Definition DQ : string := String "034"%char EmptyString.

Fixpoint json_escape (s : string) : string :=
  match s with
  | EmptyString => EmptyString
  | String a s' =>
      if Ascii.eqb a "034"%char then "\" +:+ DQ +:+ json_escape s'
      else if Ascii.eqb a "\"%char then "\\" +:+ json_escape s'
      else String a (json_escape s')
  end.

Definition json_of_hello (d : HelloWorldData) : string :=
  "{" +:+ DQ +:+ "message" +:+ DQ +:+ ":" +:+ DQ +:+ json_escape (message d) +:+ DQ +:+
  "," +:+ DQ +:+ "timestamp" +:+ DQ +:+ ":" +:+ DQ +:+ json_escape (timestamp d) +:+ DQ +:+ "}".

Definition node_runtime : Runtime :=
  {| toISOString := iso8601; JSON_stringify := json_of_hello;
     write_throws := fun _ _ => false;
     heartbeat_first := fun _ => true |}.

(** The same runtime with a sink on which every heartbeat write throws. *)
Definition heartbeat_refused : Runtime :=
  {| toISOString := iso8601; JSON_stringify := json_of_hello;
     write_throws := fun w _ => match w with in_heartbeat => true | _ => false end;
     heartbeat_first := fun _ => true |}.

(** The same runtime with a sink on which every write of the data timer
    throws. *)
Definition data_refused : Runtime :=
  {| toISOString := iso8601; JSON_stringify := json_of_hello;
     write_throws := fun w _ => match w with in_interval => true | _ => false end;
     heartbeat_first := fun _ => false |}.

(** The connection the handler returns for a GET request at the epoch. *)
Definition accepted (rt : Runtime) : Connection :=
  connection_of (handler (H := rt) "GET" 0).

(** ** Stream client: components/HelloWorld.tsx *)

Inductive ConnectionStatus := connecting | connected | disconnected | reconnecting.

(** An [EventSource] object: whether [close()] was called on it, and the
    [retryCount] its three handlers closed over (the one of the [connect]
    that constructed it). *)
Record EventSourceObj := mkSource { es_closed : bool; es_retryCount : nat }.

(** ** Numbers

    A JavaScript number is an IEEE-754 binary64 value: a rational with a
    53-bit significand and an exponent from -1022 to 1023, an infinity, or
    NaN.  The two zeros are not told apart; nothing in the component
    does. *)
Inductive Number := Fin (x : Q) | PosInf | NegInf | NaN.

(** The integer nearest to [x], the even one when two are equally near. *)
Definition rne (x : Q) : Z :=
  let f := Qfloor x in
  match (x - inject_Z f ?= 1 # 2)%Q with
  | Lt => f
  | Gt => (f + 1)%Z
  | Eq => if Z.even f then f else (f + 1)%Z
  end.

(** For [0 < x], the exponent [e] with [2^e <= x < 2^(e+1)]. *)
Definition ilog2 (x : Q) : Z :=
  let e := (Z.log2 (Qnum x) - Z.log2 (Zpos (Qden x)))%Z in
  if Qle_bool (2 ^ e) x then e else (e - 1)%Z.

(** For [0 < x], the multiple of the unit in the last place of [x] nearest
    to [x]; below [2^-1022] the unit is the subnormal one, [2^-1074]. *)
Definition nearest (x : Q) : Q :=
  let e := Z.max (ilog2 x) (-1022) in
  let ulp := (2 ^ (e - 52))%Q in
  Qred (inject_Z (rne (x / ulp)) * ulp).

(** The number an exact result is rounded to (round to nearest, ties to
    even); from [2^1024] on the rounded magnitude overflows. *)
Definition round64 (x : Q) : Number :=
  match (x ?= 0)%Q with
  | Eq => Fin 0
  | Gt => let y := nearest x in if Qle_bool (2 ^ 1024) y then PosInf else Fin y
  | Lt => let y := nearest (- x) in if Qle_bool (2 ^ 1024) y then NegInf else Fin (- y)
  end.

(** [a * b] on numbers. *)
Definition num_mul (a b : Number) : Number :=
  match a, b with
  | NaN, _ | _, NaN => NaN
  | Fin x, Fin y => round64 (x * y)
  | Fin x, PosInf | PosInf, Fin x =>
      match (x ?= 0)%Q with Eq => NaN | Gt => PosInf | Lt => NegInf end
  | Fin x, NegInf | NegInf, Fin x =>
      match (x ?= 0)%Q with Eq => NaN | Gt => NegInf | Lt => PosInf end
  | PosInf, PosInf | NegInf, NegInf => PosInf
  | PosInf, NegInf | NegInf, PosInf => NegInf
  end.

(** [a + b] on numbers. *)
Definition num_add (a b : Number) : Number :=
  match a, b with
  | NaN, _ | _, NaN => NaN
  | Fin x, Fin y => round64 (x + y)
  | PosInf, NegInf | NegInf, PosInf => NaN
  | PosInf, _ | _, PosInf => PosInf
  | NegInf, _ | _, NegInf => NegInf
  end.

(** [Math.min(a, b)]. *)
Definition Math_min (a b : Number) : Number :=
  match a, b with
  | NaN, _ | _, NaN => NaN
  | NegInf, _ | _, NegInf => NegInf
  | PosInf, y => y
  | x, PosInf => x
  | Fin x, Fin y => if Qle_bool x y then Fin x else Fin y
  end.

(** [a <= b] on numbers; NaN compares with nothing. *)
Definition num_le (a b : Number) : Prop :=
  match a, b with
  | Fin x, Fin y => (x <= y)%Q
  | Fin _, PosInf | NegInf, Fin _ | NegInf, PosInf
  | PosInf, PosInf | NegInf, NegInf => True
  | _, _ => False
  end.

(** A handle returned by [setTimeout]: still pending or not (fired or
    cleared), its delay in milliseconds, and the [retryCount] of the
    [connect] its callback closed over. *)
Record TimeoutObj := mkTimeout { to_pending : bool; to_delay : Number; to_retryCount : nat }.

(** The component instance: the five [useState] cells, the two [useRef]
    cells, and the browser objects they may point to.  [sources] and
    [timeouts] hold every object ever created, addressed by position;
    [constructed] counts the calls of the [EventSource] constructor. *)
Record Component := mkComponent {
  helloData : Json;
  error : option string;
  connectionStatus : ConnectionStatus;
  retryCount : nat;
  lastUpdateTime : option string;
  eventSourceRef : option nat;
  reconnectTimeoutRef : option nat;
  sources : list EventSourceObj;
  timeouts : list TimeoutObj;
  constructed : nat;
  mounted : bool
}.

Definition setHelloData (v : Json) (c : Component) : Component :=
  mkComponent v (error c) (connectionStatus c) (retryCount c) (lastUpdateTime c)
    (eventSourceRef c) (reconnectTimeoutRef c) (sources c) (timeouts c)
    (constructed c) (mounted c).

Definition setError (v : option string) (c : Component) : Component :=
  mkComponent (helloData c) v (connectionStatus c) (retryCount c) (lastUpdateTime c)
    (eventSourceRef c) (reconnectTimeoutRef c) (sources c) (timeouts c)
    (constructed c) (mounted c).

Definition setConnectionStatus (v : ConnectionStatus) (c : Component) : Component :=
  mkComponent (helloData c) (error c) v (retryCount c) (lastUpdateTime c)
    (eventSourceRef c) (reconnectTimeoutRef c) (sources c) (timeouts c)
    (constructed c) (mounted c).

Definition setRetryCount (v : nat) (c : Component) : Component :=
  mkComponent (helloData c) (error c) (connectionStatus c) v (lastUpdateTime c)
    (eventSourceRef c) (reconnectTimeoutRef c) (sources c) (timeouts c)
    (constructed c) (mounted c).

Definition setLastUpdateTime (v : option string) (c : Component) : Component :=
  mkComponent (helloData c) (error c) (connectionStatus c) (retryCount c) v
    (eventSourceRef c) (reconnectTimeoutRef c) (sources c) (timeouts c)
    (constructed c) (mounted c).

Definition with_eventSourceRef (v : option nat) (c : Component) : Component :=
  mkComponent (helloData c) (error c) (connectionStatus c) (retryCount c) (lastUpdateTime c)
    v (reconnectTimeoutRef c) (sources c) (timeouts c) (constructed c) (mounted c).

Definition with_reconnectTimeoutRef (v : option nat) (c : Component) : Component :=
  mkComponent (helloData c) (error c) (connectionStatus c) (retryCount c) (lastUpdateTime c)
    (eventSourceRef c) v (sources c) (timeouts c) (constructed c) (mounted c).

Definition with_sources (v : list EventSourceObj) (c : Component) : Component :=
  mkComponent (helloData c) (error c) (connectionStatus c) (retryCount c) (lastUpdateTime c)
    (eventSourceRef c) (reconnectTimeoutRef c) v (timeouts c) (constructed c) (mounted c).

Definition with_timeouts (v : list TimeoutObj) (c : Component) : Component :=
  mkComponent (helloData c) (error c) (connectionStatus c) (retryCount c) (lastUpdateTime c)
    (eventSourceRef c) (reconnectTimeoutRef c) (sources c) v (constructed c) (mounted c).

Definition with_constructed (v : nat) (c : Component) : Component :=
  mkComponent (helloData c) (error c) (connectionStatus c) (retryCount c) (lastUpdateTime c)
    (eventSourceRef c) (reconnectTimeoutRef c) (sources c) (timeouts c) v (mounted c).

Definition with_mounted (v : bool) (c : Component) : Component :=
  mkComponent (helloData c) (error c) (connectionStatus c) (retryCount c) (lastUpdateTime c)
    (eventSourceRef c) (reconnectTimeoutRef c) (sources c) (timeouts c) (constructed c) v.

(** The component before its first effect ran (the [useState] and [useRef]
    initial values); [JNull] is [null]. *)
Definition unmounted : Component :=
  mkComponent JNull None connecting 0 None None None [] [] 0 false.

Definition maxRetries : nat := 10.
Definition baseDelay : Q := 1000.
Definition maxDelay : Q := 30000.

(** [Math.pow(b, e)] at a natural exponent: the power, rounded.  The powers
    of 2 are numbers up to [2^1023] and infinite from [2^1024] on. *)
Definition Math_pow (b : Q) (e : nat) : Number := round64 (b ^ Z.of_nat e).

(** [getRetryDelay] (lines 24-28); [random] is the value returned by this
    call's [Math.random()], a number of [0, 1) given by its value.  Each
    operation rounds its exact result. *)
Definition getRetryDelay (retryAttempt : nat) (random : Q) : Number :=
  let delay := Math_min (num_mul (Fin baseDelay) (Math_pow 2 retryAttempt)) (Fin maxDelay) in
  num_add delay (num_mul (Fin random) (Fin 1000)).

(** [eventSource.close()] on the object at position [i]. *)
Definition close (i : nat) (c : Component) : Component :=
  with_sources (alter (fun s => mkSource true (es_retryCount s)) i (sources c)) c.

(** [clearTimeout(t)]; also what firing does to the handle. *)
Definition clearTimeout (t : nat) (c : Component) : Component :=
  with_timeouts
    (alter (fun x => mkTimeout false (to_delay x) (to_retryCount x)) t (timeouts c)) c.

(** [reconnectTimeoutRef.current = setTimeout(cb, delay)], where [cb] calls
    the [connect] that closed over [rc]. *)
Definition setTimeout (rc : nat) (delay : Number) (c : Component) : Component :=
  with_reconnectTimeoutRef (Some (length (timeouts c)))
    (with_timeouts (timeouts c ++ [mkTimeout true delay rc]) c).

(** The two guarded statements that open [connect] and make up the effect's
    cleanup (lines 33-39 and 111-116). *)
Definition teardown (c : Component) : Component :=
  let c := match eventSourceRef c with Some i => close i c | None => c end in
  match reconnectTimeoutRef c with Some t => clearTimeout t c | None => c end.

(** What the component takes from the browser: [JSON.parse] on a payload
    ([None] when it throws, otherwise the value, of whatever shape), and
    whether the [n]-th call of the [EventSource] constructor throws. *)
Class Browser := {
  JSON_parse : string -> option Json;
  EventSource_throws : nat -> bool
}.

Section Client.
Context `{Browser}.

(** [connect] (lines 31-97) as created by the render whose [retryCount] was
    [rc]; the handlers it installs close over the same [rc]. *)
Definition connect (rc : nat) (c : Component) : Component :=
  let c := teardown c in
  let c := setError None (setConnectionStatus connecting c) in
  let n := constructed c in
  let c := with_constructed (S n) c in
  if EventSource_throws n then
    setError (Some "Failed to establish connection") (setConnectionStatus disconnected c)
  else
    with_eventSourceRef (Some (length (sources c)))
      (with_sources (sources c ++ [mkSource false rc]) c).

(** [eventSource.onopen] (lines 48-53). *)
Definition onopen (c : Component) : Component :=
  setError None (setRetryCount 0 (setConnectionStatus connected c)).

(** [eventSource.onmessage] (lines 55-71); [now] is the value of
    [new Date().toISOString()] when the handler runs. *)
Definition onmessage (data now : string) (c : Component) : Component :=
  match JSON_parse data with
  | Some data =>
      setError None (setConnectionStatus connected
        (setLastUpdateTime (Some now) (setHelloData data c)))
  | None => setError (Some "Failed to parse server data") c
  end.

(** [eventSource.onerror] (lines 73-91) of the object at position [i], whose
    closure holds [rc]. *)
Definition onerror (i rc : nat) (random : Q) (c : Component) : Component :=
  let c := close i c in
  if rc <? maxRetries then
    let c := setConnectionStatus reconnecting c in
    let delay := getRetryDelay rc random in
    setTimeout rc delay c
  else
    setError (Some ("Connection failed after " +:+ pretty maxRetries +:+ " attempts"))
      (setConnectionStatus disconnected c).

(** The callback given to [setTimeout] (lines 83-86). *)
Definition timeout_callback (rc : nat) (c : Component) : Component :=
  connect rc (setRetryCount (S (retryCount c)) c).

(** [reconnect] (lines 100-103). *)
Definition reconnect (rc : nat) (c : Component) : Component :=
  connect rc (setRetryCount 0 c).

(** The effect of lines 106-118 after a render.  Its only dependency is
    [connect], which [useCallback] (line 97) replaces exactly when
    [retryCount] differs from the one of the previous render ([getRetryDelay]
    and [maxRetries] never change); the effect then runs the previous cleanup
    (lines 110-117) followed by the new [connect] (line 107). *)
Definition commit (rendered : nat) (c : Component) : Component :=
  if retryCount c =? rendered then c
  else connect (retryCount c) (teardown c).

(** The first effect run. *)
Definition mount : Component :=
  connect (retryCount unmounted) (with_mounted true unmounted).

(** What can happen to a mounted component.  Browser objects raise events
    only while live: an [EventSource] until it is closed, a timeout while it
    is pending.  The Retry button exists only while the status is
    [disconnected] (lines 161-168). *)
Inductive ClientEvent :=
  | EsOpen (i : nat)
  | EsMessage (i : nat) (data now : string)
  | EsError (i : nat) (random : Q)
  | TimeoutFires (t : nat)
  | ClickRetry
  | Unmount.

Definition dispatch (e : ClientEvent) (c : Component) : option Component :=
  match e with
  | EsOpen i =>
      match sources c !! i with
      | Some s => if es_closed s then None else Some (onopen c)
      | None => None
      end
  | EsMessage i data now =>
      match sources c !! i with
      | Some s => if es_closed s then None else Some (onmessage data now c)
      | None => None
      end
  | EsError i random =>
      match sources c !! i with
      | Some s => if es_closed s then None else Some (onerror i (es_retryCount s) random c)
      | None => None
      end
  | TimeoutFires t =>
      match timeouts c !! t with
      | Some x =>
          if to_pending x then Some (timeout_callback (to_retryCount x) (clearTimeout t c))
          else None
      | None => None
      end
  | ClickRetry =>
      match connectionStatus c with
      | disconnected => if mounted c then Some (reconnect (retryCount c) c) else None
      | _ => None
      end
  | Unmount =>
      if mounted c then Some (with_mounted false (teardown c)) else None
  end.

(** One event: its handler runs to completion with the closures of the
    render that created it, the state updates it made are rendered together
    (React's batching), and the effect is committed before the next event
    is dispatched.  Nothing renders once the component is unmounted. *)
Definition step (e : ClientEvent) (c : Component) : option Component :=
  match dispatch e c with
  | Some c' => Some (if mounted c' then commit (retryCount c) c' else c')
  | None => None
  end.

Fixpoint steps (es : list ClientEvent) (c : Component) : option Component :=
  match es with
  | [] => Some c
  | e :: es' =>
      match step e c with
      | Some c' => steps es' c'
      | None => None
      end
  end.

(** The live stream fails. *)
Definition fail (random : Q) (c : Component) : option Component :=
  match eventSourceRef c with
  | Some i => step (EsError i random) c
  | None => None
  end.

(** The pending reconnect timer expires. *)
Definition retry (c : Component) : option Component :=
  match reconnectTimeoutRef c with
  | Some t => step (TimeoutFires t) c
  | None => None
  end.

(** Consecutive connection failures, one per element of [rs] (the values
    [Math.random()] returns), each but the last followed by the expiry of the
    timer it scheduled; no stream opens in between. *)
Fixpoint failures (rs : list Q) (c : Component) : option Component :=
  match rs with
  | [] => Some c
  | r :: rs' =>
      match fail r c with
      | Some c1 =>
          match rs' with
          | [] => Some c1
          | _ :: _ =>
              match retry c1 with
              | Some c2 => failures rs' c2
              | None => None
              end
          end
      | None => None
      end
  end.

(** Streams not closed, timers still pending. *)
Definition active_sources (c : Component) : nat :=
  length (filter (fun s => es_closed s = false) (sources c)).

Definition pending_timeouts (c : Component) : nat :=
  length (filter (fun x => to_pending x = true) (timeouts c)).

(** The resource discipline of the component: a stream that is not closed
    is the one [eventSourceRef] points to, a pending timer is the one
    [reconnectTimeoutRef] points to, and an open stream never coexists with
    a pending timer. *)
Definition all_closed (c : Component) : Prop :=
  forall i s, sources c !! i = Some s -> es_closed s = true.

Definition none_pending (c : Component) : Prop :=
  forall t x, timeouts c !! t = Some x -> to_pending x = false.

Definition single_stream (c : Component) : Prop :=
  forall i s, sources c !! i = Some s -> es_closed s = false -> eventSourceRef c = Some i.

Definition single_timer (c : Component) : Prop :=
  forall t x, timeouts c !! t = Some x -> to_pending x = true ->
              reconnectTimeoutRef c = Some t.

Definition disciplined (c : Component) : Prop :=
  single_stream c /\ single_timer c /\ (all_closed c \/ none_pending c).

(** Between events the closures of the live objects hold the current
    [retryCount], and an unmounted component has no live object. *)
Definition synced (c : Component) : Prop :=
  (forall i s, sources c !! i = Some s -> es_closed s = false ->
               es_retryCount s = retryCount c) /\
  (forall t x, timeouts c !! t = Some x -> to_pending x = true ->
               to_retryCount x = retryCount c).

Definition settled (c : Component) : Prop :=
  disciplined c /\ synced c /\ (mounted c = false -> all_closed c /\ none_pending c).

(** [eventSourceRef] points to a stream that is not closed. *)
Definition live (c : Component) : Prop :=
  exists i s, eventSourceRef c = Some i /\ sources c !! i = Some s /\ es_closed s = false.

End Client.

(** A browser whose [EventSource] constructor never throws and whose
    [JSON.parse] is given on the payloads used below: one frame of the
    emitter, the literals [null] and [42], which are JSON texts, and text
    that is not JSON. *)
Definition sample_payload : string :=
  json_of_hello (mkHello "Hello World" "1970-01-01T00:00:05.000Z").

Definition sample_browser : Browser :=
  {| JSON_parse := fun s =>
       if String.eqb s sample_payload
       then Some (json_value (mkHello "Hello World" "1970-01-01T00:00:05.000Z"))
       else if String.eqb s "null" then Some JNull
       else if String.eqb s "42" then Some (JNumber 42)
       else None;
     EventSource_throws := fun _ => false |}.

(** ** Views of the emitter used to state further properties *)

Section EmitterViews.
Context `{Runtime}.

(** The first chunk of an accepted connection (lines 29-35). *)
Definition initial_frame (t : Z) : string :=
  data_frame (mkHello "Hello World - Connected!" (toISOString t)).

(** The chunk the data timer writes at instant [t] (lines 39-46). *)
Definition periodic_frame (t : Z) : string :=
  data_frame (mkHello "Hello World" (toISOString t)).

(** What a sink that takes every write receives during the first [k]
    periods of 5000 ms after [t0]: one data frame per period and, in every
    sixth period, one heartbeat, before or after that period's data frame as
    the runtime orders the two callbacks. *)
Fixpoint schedule (t0 : Z) (k : nat) : list string :=
  match k with
  | O => []
  | S k' =>
      let t := (t0 + 5000 * Z.of_nat k)%Z in
      schedule t0 k' ++
      (if (S k' mod 6 =? 0)%nat then
         if heartbeat_first t then [heartbeat_frame; periodic_frame t]
         else [periodic_frame t; heartbeat_frame]
       else [periodic_frame t])
  end.

(** A chunk the handler can have produced between [lo] and [hi]. *)
Definition chunk_ok (lo hi : Z) (chunk : string) : Prop :=
  chunk = heartbeat_frame \/
  exists t, (lo <= t <= hi)%Z /\ (chunk = initial_frame t \/ chunk = periodic_frame t).

(** The response head and the listeners of [c'] are those of [c]. *)
Definition same_head (c c' : Connection) : Prop :=
  statusCode c' = statusCode c /\ headers c' = headers c /\
  finished c' = finished c /\ listeners c' = listeners c.

(** The handler's clock is at or after [lo] and every chunk on the sink is
    one the handler can have produced since [lo]. *)
Definition well_formed_sink (lo : Z) (c : Connection) : Prop :=
  (lo <= clock c)%Z /\ Forall (chunk_ok lo (clock c)) (written c).

End EmitterViews.

(** ** The connection indicator and further views of the client *)

(** [getStatusColor] (lines 122-134).  The [default] branch of the switch
    cannot be taken at the type [ConnectionStatus]. *)
Definition getStatusColor (s : ConnectionStatus) : string :=
  match s with
  | connected => "bg-green-500"
  | connecting | reconnecting => "bg-yellow-500"
  | disconnected => "bg-red-500"
  end.

(** [getStatusText] (lines 136-149). *)
Definition getStatusText (s : ConnectionStatus) (retryCount : nat) : string :=
  match s with
  | connected => "Live"
  | connecting => "Connecting..."
  | reconnecting =>
      "Reconnecting... (" +:+ pretty retryCount +:+ "/" +:+ pretty maxRetries +:+ ")"
  | disconnected => "Disconnected"
  end.

(** Whether the dot carries [animate-pulse] (lines 154-158). *)
Definition pulses (s : ConnectionStatus) : bool :=
  match s with
  | connecting | reconnecting => true
  | _ => false
  end.

(** Whether the Retry button is rendered (lines 161-168). *)
Definition offersRetry (s : ConnectionStatus) : bool :=
  match s with
  | disconnected => true
  | _ => false
  end.

(** [reconnectTimeoutRef] points to a timer that is still pending. *)
Definition waiting (c : Component) : Prop :=
  exists t x, reconnectTimeoutRef c = Some t /\ timeouts c !! t = Some x /\
              to_pending x = true.

(** The status agrees with the resources held. *)
Definition status_ok (c : Component) : Prop :=
  match connectionStatus c with
  | connecting | connected => live c
  | reconnecting => waiting c
  | disconnected => all_closed c /\ none_pending c
  end.

(** The count never exceeds [maxRetries], a pending timer was scheduled
    below it, the status of a mounted component agrees with its resources,
    and no data is held before the first arrival time is. *)
Definition healthy (c : Component) : Prop :=
  retryCount c <= maxRetries /\
  (forall t x, timeouts c !! t = Some x -> to_pending x = true ->
               to_retryCount x < maxRetries) /\
  (mounted c = true -> status_ok c) /\
  (lastUpdateTime c = None -> helloData c = JNull).

(** Events that cannot store data: every event but a message on whose
    payload [JSON.parse] returns. *)
Definition stores_nothing `{Browser} (e : ClientEvent) : Prop :=
  match e with
  | EsMessage _ data _ => JSON_parse data = None
  | _ => True
  end.

(** The delays of all reconnect timers ever scheduled, oldest first, and
    the exact sum of those that are finite. *)
Definition delays (c : Component) : list Number := map to_delay (timeouts c).

Definition millis (x : Number) : Q :=
  match x with Fin d => d | _ => 0 end.

Definition total_delay (c : Component) : Q :=
  fold_right Qplus 0%Q (map millis (delays c)).

(** The delays of consecutive retries starting at attempt [r], for the
    values [us] of [Math.random()]. *)
Fixpoint backoffs (r : nat) (us : list Q) : list Number :=
  match us with
  | [] => []
  | u :: us' => getRetryDelay r u :: backoffs (S r) us'
  end.

(** ** Sample inputs of the further properties *)

(** A browser whose [EventSource] constructor throws on its second call
    only. *)
Definition flaky_browser : Browser :=
  {| JSON_parse := fun _ => None; EventSource_throws := fun n => n =? 1 |}.

(** Eleven consecutive failures from the mount, each but the last followed
    by the expiry of its timer, as a trace of events. *)
Definition failing_trace : list ClientEvent :=
  flat_map (fun k => [EsError (2 * k) (1 # 2); TimeoutFires k]) (seq 0 10) ++
  [EsError 20 (1 # 2)].

(** The states the sample browser's component is in after the first retry
    and after the whole failing trace. *)
Definition after_one_retry : Component :=
  Eval vm_compute in
    match steps (H := sample_browser) [EsError 0 (1 # 2); TimeoutFires 0]
            (mount (H := sample_browser)) with
    | Some c => c
    | None => unmounted
    end.

Definition gave_up : Component :=
  Eval vm_compute in
    match steps (H := sample_browser) failing_trace (mount (H := sample_browser)) with
    | Some c => c
    | None => unmounted
    end.

(** * Properties of the stream emitter *)

Example iso8601_epoch : iso8601 0 = "1970-01-01T00:00:00.000Z".
Proof. reflexivity. Qed.

Example iso8601_2023 : iso8601 1700000000000 = "2023-11-14T22:13:20.000Z".
Proof. vm_compute. reflexivity. Qed.

Example iso8601_leap_day : iso8601 1709210096789 = "2024-02-29T12:34:56.789Z".
Proof. vm_compute. reflexivity. Qed.

Example iso8601_before_epoch : iso8601 (-1) = "1969-12-31T23:59:59.999Z".
Proof. vm_compute. reflexivity. Qed.

Example iso8601_year_10000 : iso8601 253402300800000 = "+010000-01-01T00:00:00.000Z".
Proof. vm_compute. reflexivity. Qed.

Example iso8601_year_minus_1 : iso8601 (-62198755200000) = "-000001-01-01T00:00:00.000Z".
Proof. vm_compute. reflexivity. Qed.

Section EmitterFacts.
Context `{Runtime}.

Lemma res_write_ok who chunk c :
  write_throws who (clock c) = false ->
  res_write who chunk c = Some (with_written (written c ++ [chunk]) c).
Proof. intros E. unfold res_write. now rewrite E. Qed.

Lemma res_write_throws who chunk c :
  write_throws who (clock c) = true -> res_write who chunk c = None.
Proof. intros E. unfold res_write. now rewrite E. Qed.

(** *** The sink only grows *)

Lemma interval_callback_grows c : written c `prefix_of` written (interval_callback c).
Proof.
  unfold interval_callback, res_write.
  destruct (write_throws in_interval (clock c)); simpl.
  - reflexivity.
  - now apply prefix_app_r.
Qed.

Lemma heartbeat_callback_grows c : written c `prefix_of` written (heartbeat_callback c).
Proof.
  unfold heartbeat_callback, res_write.
  destruct (write_throws in_heartbeat (clock c)); simpl.
  - reflexivity.
  - now apply prefix_app_r.
Qed.

Lemma written_with_due h d c : written (with_due h d c) = written c.
Proof. now destruct h. Qed.

Lemma fire_grows h p cb c :
  (forall x, written x `prefix_of` written (cb x)) ->
  written c `prefix_of` written (fire h p cb c).
Proof.
  intros Hcb. unfold fire.
  destruct (due h c) as [d|]; [|reflexivity].
  destruct (d <=? clock c)%Z; [|reflexivity].
  etransitivity; [|apply Hcb]. now rewrite written_with_due.
Qed.

Lemma tick_grows c : written c `prefix_of` written (tick c).
Proof.
  unfold tick. destruct (heartbeat_first _).
  - etransitivity; [|apply fire_grows, interval_callback_grows].
    etransitivity; [|apply fire_grows, heartbeat_callback_grows].
    reflexivity.
  - etransitivity; [|apply fire_grows, heartbeat_callback_grows].
    etransitivity; [|apply fire_grows, interval_callback_grows].
    reflexivity.
Qed.

Lemma advance_grows n c : written c `prefix_of` written (advance n c).
Proof.
  revert c. induction n as [|n IH]; intros c; simpl; [reflexivity|].
  etransitivity; [apply tick_grows | apply IH].
Qed.

Lemma emit_written s c : written (emit s c) = written c.
Proof.
  unfold emit. generalize (listeners c) as ls. intros ls. revert c.
  induction ls as [|l ls IH]; intros c; simpl; [reflexivity|].
  rewrite IH. destruct (Signal_eqb (fst l) s); [|reflexivity].
  apply written_with_due.
Qed.

Lemma react_grows c e : written c `prefix_of` written (react c e).
Proof.
  destruct e as [ms|s]; simpl.
  - apply advance_grows.
  - now rewrite emit_written.
Qed.

Lemma run_grows es c : written c `prefix_of` written (run es c).
Proof.
  unfold run. revert c. induction es as [|e es IH]; intros c; simpl; [reflexivity|].
  etransitivity; [apply react_grows | apply IH].
Qed.

(** *** A connection without timers stays as it is, up to its clock *)

Lemma with_clock_with_clock t t' c : with_clock t (with_clock t' c) = with_clock t c.
Proof. reflexivity. Qed.

Lemma with_clock_id c : with_clock (clock c) c = c.
Proof. now destruct c. Qed.

Lemma silent_with_clock t c : silent c -> silent (with_clock t c).
Proof. intros [? ?]; now split. Qed.

Lemma clearInterval_silent h c : silent c -> clearInterval h c = c.
Proof.
  intros [Hi Hh]. destruct c; simpl in *; subst. now destruct h.
Qed.

Lemma tick_silent c : silent c -> tick c = with_clock (clock c + 1) c.
Proof.
  intros [Hi Hh]. unfold tick, fire; simpl.
  destruct (heartbeat_first _); simpl.
  - rewrite Hh. simpl. now rewrite Hi.
  - rewrite Hi. simpl. now rewrite Hh.
Qed.

Lemma advance_silent n c :
  silent c -> advance n c = with_clock (clock c + Z.of_nat n) c.
Proof.
  revert c. induction n as [|n IH]; intros c Hs.
  - simpl. rewrite Z.add_0_r. symmetry. apply with_clock_id.
  - cbn [advance]. rewrite (tick_silent c Hs).
    rewrite IH by now apply silent_with_clock.
    rewrite with_clock_with_clock. simpl clock. f_equal. lia.
Qed.

Lemma emit_silent s c : silent c -> emit s c = c.
Proof.
  intros Hs. unfold emit. induction (listeners c) as [|l ls IH]; simpl; [reflexivity|].
  destruct (Signal_eqb (fst l) s); [rewrite clearInterval_silent by assumption|]; exact IH.
Qed.

Lemma run_silent es c : silent c -> exists t, run es c = with_clock t c.
Proof.
  unfold run. revert c. induction es as [|e es IH]; intros c Hs; simpl.
  - exists (clock c). symmetry. apply with_clock_id.
  - destruct e as [ms|s]; simpl.
    + unfold elapse. rewrite advance_silent by assumption.
      destruct (IH (with_clock (clock c + Z.of_nat (Z.to_nat ms)) c)) as [t Ht].
      { now apply silent_with_clock. }
      exists t. now rewrite Ht.
    + rewrite emit_silent by assumption. now apply IH.
Qed.

Lemma run_silent_written es c : silent c -> written (run es c) = written c.
Proof. intros Hs. destruct (run_silent es c Hs) as [t ->]. reflexivity. Qed.

(** *** Idle stretches and expiries of the data timer *)

Lemma advance_add a b c : advance (a + b) c = advance b (advance a c).
Proof.
  revert c. induction a as [|a IH]; intros c; simpl; [reflexivity|apply IH].
Qed.

Lemma tick_idle c :
  (forall d, interval_due c = Some d -> (clock c + 1 < d)%Z) ->
  (forall d, heartbeat_due c = Some d -> (clock c + 1 < d)%Z) ->
  tick c = with_clock (clock c + 1) c.
Proof.
  intros Hi Hh.
  assert (Ei : forall x, clock x = (clock c + 1)%Z -> interval_due x = interval_due c ->
             fire interval 5000 interval_callback x = x).
  { intros x Hc Hd. unfold fire. simpl. rewrite Hd, Hc.
    destruct (interval_due c) as [d|]; [|reflexivity].
    specialize (Hi d eq_refl). now destruct (Z.leb_spec d (clock c + 1)); [lia|]. }
  assert (Eh : forall x, clock x = (clock c + 1)%Z -> heartbeat_due x = heartbeat_due c ->
             fire heartbeat 30000 heartbeat_callback x = x).
  { intros x Hc Hd. unfold fire. simpl. rewrite Hd, Hc.
    destruct (heartbeat_due c) as [d|]; [|reflexivity].
    specialize (Hh d eq_refl). now destruct (Z.leb_spec d (clock c + 1)); [lia|]. }
  unfold tick. destruct (heartbeat_first _).
  - rewrite (Eh (with_clock (clock c + 1) c)) by reflexivity. now apply Ei.
  - rewrite (Ei (with_clock (clock c + 1) c)) by reflexivity. now apply Eh.
Qed.

Lemma advance_idle n c :
  (forall d, interval_due c = Some d -> (clock c + Z.of_nat n < d)%Z) ->
  (forall d, heartbeat_due c = Some d -> (clock c + Z.of_nat n < d)%Z) ->
  advance n c = with_clock (clock c + Z.of_nat n) c.
Proof.
  revert c. induction n as [|n IH]; intros c Hi Hh.
  - simpl. rewrite Z.add_0_r. symmetry. apply with_clock_id.
  - cbn [advance]. rewrite tick_idle.
    + rewrite IH.
      * rewrite with_clock_with_clock. simpl clock. f_equal. lia.
      * simpl. intros d Hd. specialize (Hi d Hd). lia.
      * simpl. intros d Hd. specialize (Hh d Hd). lia.
    + intros d Hd. specialize (Hi d Hd). lia.
    + intros d Hd. specialize (Hh d Hd). lia.
Qed.

(** The data timer expires [n] ms from now, strictly before the heartbeat,
    and its write succeeds: one data frame stamped with the expiry instant
    is appended and the timer is re-armed 5000 ms later. *)
Lemma advance_to_expiry n c d :
  (0 < n)%nat ->
  interval_due c = Some d ->
  (clock c + Z.of_nat n)%Z = d ->
  (forall d', heartbeat_due c = Some d' -> (d < d')%Z) ->
  write_throws in_interval d = false ->
  advance n c =
    with_written (written c ++ [data_frame (mkHello "Hello World" (toISOString d))])
      (with_due interval (Some (d + 5000)%Z) (with_clock d c)).
Proof.
  intros Hn Hi Hd Hh Hw.
  destruct n as [|n]; [lia|].
  replace (S n) with (n + 1)%nat by lia.
  rewrite advance_add, (advance_idle n c).
  - cbn [advance]. unfold tick, fire. simpl.
    replace (clock c + Z.of_nat n + 1)%Z with d by lia.
    destruct (heartbeat_first _); simpl.
    + destruct (heartbeat_due c) as [d'|] eqn:Eh; simpl.
      * specialize (Hh d' eq_refl).
        destruct (Z.leb_spec d' d); [lia|]. simpl.
        rewrite ?Hi, Z.leb_refl. unfold interval_callback, res_write. simpl.
        now rewrite Hw, ?Eh.
      * rewrite ?Hi, Z.leb_refl. unfold interval_callback, res_write. simpl.
        now rewrite Hw, ?Eh.
    + rewrite Hi, Z.leb_refl. unfold interval_callback, res_write. simpl.
      rewrite Hw. simpl.
      destruct (heartbeat_due c) as [d'|] eqn:Eh; [|reflexivity].
      specialize (Hh d' eq_refl).
      destruct (Z.leb_spec d' d); [lia|reflexivity].
  - intros x Hx. rewrite Hi in Hx. inversion Hx; subst. lia.
  - intros x Hx. specialize (Hh x Hx). lia.
Qed.

(** *** What the handler returns *)

Lemma handler_get_ok T0 :
  write_throws in_handler T0 = false ->
  handler "GET" T0 =
    Returned (mkConnection (Some 200)
      [("Content-Type", ["text/event-stream"]);
       ("Cache-Control", ["no-cache, no-transform"]);
       ("Connection", ["keep-alive"]);
       ("Access-Control-Allow-Origin", ["*"]);
       ("Access-Control-Allow-Headers", ["Cache-Control"]);
       ("Access-Control-Allow-Methods", ["GET"])]
      [data_frame (mkHello "Hello World - Connected!" (toISOString T0))]
      false T0 (Some (T0 + 5000)%Z) (Some (T0 + 30000)%Z)
      [(req_close, interval); (req_end, interval); (res_error, interval);
       (req_close, heartbeat)]).
Proof.
  intros Hw. unfold handler, res_write. simpl. now rewrite Hw.
Qed.

Lemma handler_get_threw T0 :
  write_throws in_handler T0 = true ->
  exists c, handler "GET" T0 = Threw c /\ written c = [] /\ silent c /\ clock c = T0.
Proof.
  intros Hw. unfold handler, res_write. simpl. rewrite Hw.
  eexists. split; [reflexivity|]. repeat split.
Qed.

(** C7: for a GET request arriving at instant [T0], the handler itself (no
    clock advance) writes the initial data frame, carrying
    "Hello World - Connected!" and the rendering of [T0], and whatever
    happens afterwards that frame stays the first chunk on the sink.  The
    only way for the sink to stay empty is that this very write throws, in
    which case the handler throws and nothing is ever written. *)
Theorem first_frame_is_initial T0 es :
  let c := connection_of (handler "GET" T0) in
  let initial :=
    "data: " +:+ JSON_stringify (mkHello "Hello World - Connected!" (toISOString T0))
      +:+ LF +:+ LF in
  clock c = T0 /\
  written c = (if write_throws in_handler T0 then [] else [initial]) /\
  head (written (run es c)) =
    (if write_throws in_handler T0 then None else Some initial).
Proof.
  intros c initial. subst c.
  destruct (write_throws in_handler T0) eqn:Hw.
  - destruct (handler_get_threw T0 Hw) as (c & -> & Hwr & Hs & Hc). simpl.
    split; [exact Hc|]. split; [exact Hwr|].
    rewrite run_silent_written by exact Hs. now rewrite Hwr.
  - rewrite (handler_get_ok T0 Hw). simpl connection_of.
    split; [reflexivity|]. split; [reflexivity|].
    match goal with |- head (written (run es ?c0)) = _ =>
      destruct (run_grows es c0) as [rest ->] end.
    reflexivity.
Qed.

(** C9: a request whose method [M] is not GET is answered with status 405,
    the single header Allow: GET and the body "Method M Not Allowed"; the
    response is ended, no timer and no listener exists, and whatever happens
    afterwards only the clock of the connection moves. *)
Theorem non_get_rejected method T0 es :
  method <> "GET" ->
  exists c,
    handler method T0 = Returned c /\
    statusCode c = Some 405 /\
    headers c = [("Allow", ["GET"])] /\
    written c = ["Method " +:+ method +:+ " Not Allowed"] /\
    finished c = true /\
    interval_due c = None /\ heartbeat_due c = None /\ listeners c = [] /\
    exists t, run es c = with_clock t c.
Proof.
  intros Hm. unfold handler.
  assert (String.eqb method "GET" = false) as -> by now apply String.eqb_neq.
  simpl. eexists. split; [reflexivity|]. simpl.
  repeat (split; [reflexivity|]).
  apply run_silent. now split.
Qed.

Lemma fire_interval_keeps c :
  heartbeat_due (fire interval 5000 interval_callback c) = heartbeat_due c /\
  clock (fire interval 5000 interval_callback c) = clock c.
Proof.
  unfold fire. simpl. destruct (interval_due c) as [d|]; [|now split].
  destruct (d <=? clock c)%Z; [|now split].
  unfold interval_callback, res_write. simpl.
  destruct (write_throws in_interval (clock c)); now split.
Qed.

Lemma heartbeat_callback_clears_both c :
  write_throws in_heartbeat (clock c) = true ->
  heartbeat_callback c = clearInterval interval (clearInterval heartbeat c).
Proof.
  intros Hw. unfold heartbeat_callback. now rewrite res_write_throws.
Qed.

(** C10: when the heartbeat timer expires and its write throws, the catch
    block clears the heartbeat timer and the data timer: after that tick the
    connection has no timer left, and no frame of either kind is written
    from then on, whatever happens. *)
Theorem heartbeat_failure_stops_all c d es :
  heartbeat_due c = Some d ->
  (d <= clock c + 1)%Z ->
  write_throws in_heartbeat (clock c + 1) = true ->
  interval_due (tick c) = None /\
  heartbeat_due (tick c) = None /\
  written (run es (tick c)) = written (tick c).
Proof.
  intros Hd Hle Hw.
  assert (silent (tick c)) as Hs.
  { unfold tick. simpl. destruct (heartbeat_first _).
    - assert (fire heartbeat 30000 heartbeat_callback (with_clock (clock c + 1) c) =
              clearInterval interval
                (clearInterval heartbeat (with_clock (clock c + 1) c))) as ->.
      { unfold fire. simpl. rewrite Hd.
        destruct (Z.leb_spec d (clock c + 1)); [|lia].
        now apply heartbeat_callback_clears_both. }
      unfold fire. simpl. now split.
    - set (c1 := fire interval 5000 interval_callback (with_clock (clock c + 1) c)).
      destruct (fire_interval_keeps (with_clock (clock c + 1) c)) as [Hh Hc].
      fold c1 in Hh, Hc. simpl in Hh, Hc.
      unfold fire. simpl. rewrite Hh, Hd, Hc.
      destruct (Z.leb_spec d (clock c + 1)); [|lia].
      rewrite heartbeat_callback_clears_both.
      + now split.
      + destruct c1; simpl in *. now subst. }
  destruct Hs as [Hi Hh]. split; [exact Hi|]. split; [exact Hh|].
  apply run_silent_written. now split.
Qed.

(** C8: on a connection accepted at instant [T0] whose sink takes the
    writes, 5000 ms of virtual time add exactly one chunk to the sink, the
    data frame "Hello World" stamped [T0 + 5000], and 15000 ms add exactly
    three, stamped [T0 + 5000], [T0 + 10000] and [T0 + 15000], in that
    order. *)
Theorem periodic_frames_on_schedule T0 :
  write_throws in_handler T0 = false ->
  write_throws in_interval (T0 + 5000) = false ->
  write_throws in_interval (T0 + 10000) = false ->
  write_throws in_interval (T0 + 15000) = false ->
  let c := connection_of (handler "GET" T0) in
  let periodic t :=
    "data: " +:+ JSON_stringify (mkHello "Hello World" (toISOString t)) +:+ LF +:+ LF in
  written (elapse 5000 c) = written c ++ [periodic (T0 + 5000)%Z] /\
  written (elapse 15000 c) =
    written c ++ [periodic (T0 + 5000)%Z; periodic (T0 + 10000)%Z; periodic (T0 + 15000)%Z].
Proof.
  intros H0 H1 H2 H3 c periodic. subst c.
  rewrite (handler_get_ok T0 H0). simpl connection_of.
  unfold elapse.
  assert (Z.to_nat 15000 = Z.to_nat 5000 + (Z.to_nat 5000 + Z.to_nat 5000))%nat as -> by lia.
  assert (Z.of_nat (Z.to_nat 5000) = 5000%Z) as Hn by lia.
  generalize dependent (Z.to_nat 5000). intros n Hn.
  match goal with |- context [mkConnection ?s ?h _ ?f T0 _ ?hb ?ls] =>
    set (st := fun (w : list string) (t : Z) =>
                 mkConnection s h w f t (Some (t + 5000)%Z) hb ls)
  end.
  assert (Hstep : forall w t, (t + 5000 < T0 + 30000)%Z ->
            write_throws in_interval (t + 5000) = false ->
            advance n (st w t) = st (w ++ [periodic (t + 5000)%Z]) (t + 5000)%Z).
  { intros w t Hlt Hw.
    rewrite (advance_to_expiry n (st w t) (t + 5000)%Z); try reflexivity.
    - lia.
    - simpl. lia.
    - simpl. intros d' [= <-]. exact Hlt.
    - exact Hw. }
  change (mkConnection _ _ _ _ _ _ _ _) with
    (st [data_frame (mkHello "Hello World - Connected!" (toISOString T0))] T0).
  split.
  - rewrite Hstep by (try lia; assumption). reflexivity.
  - rewrite !advance_add.
    rewrite Hstep by (try lia; assumption).
    rewrite Hstep by (try lia; replace (T0 + 5000 + 5000)%Z with (T0 + 10000)%Z by lia;
                      assumption).
    rewrite Hstep
      by (try lia; replace (T0 + 5000 + 5000 + 5000)%Z with (T0 + 15000)%Z by lia;
          assumption).
    replace (T0 + 5000 + 5000 + 5000)%Z with (T0 + 15000)%Z by lia.
    replace (T0 + 5000 + 5000)%Z with (T0 + 10000)%Z by lia.
    reflexivity.
Qed.

(** *** Cancelling *)

Lemma clearInterval_idempotent h c :
  clearInterval h (clearInterval h c) = clearInterval h c.
Proof. now destruct h. Qed.

Lemma clearInterval_comm h h' c :
  clearInterval h (clearInterval h' c) = clearInterval h' (clearInterval h c).
Proof. now destruct h, h'. Qed.

Lemma clear_listeners_comm s h ls c :
  fold_left (fun c l => if Signal_eqb (fst l) s then clearInterval (snd l) c else c)
    ls (clearInterval h c) =
  clearInterval h
    (fold_left (fun c l => if Signal_eqb (fst l) s then clearInterval (snd l) c else c) ls c).
Proof.
  revert c. induction ls as [|l ls IH]; intros c; simpl; [reflexivity|].
  destruct (Signal_eqb (fst l) s); [|apply IH].
  rewrite clearInterval_comm. apply IH.
Qed.

Lemma listeners_with_due h d c : listeners (with_due h d c) = listeners c.
Proof. now destruct h. Qed.

Lemma emit_listeners s c : listeners (emit s c) = listeners c.
Proof.
  unfold emit. generalize (listeners c) at 1 as ls. intros ls. revert c.
  induction ls as [|l ls IH]; intros c; simpl; [reflexivity|].
  rewrite IH. destruct (Signal_eqb (fst l) s); [|reflexivity].
  apply listeners_with_due.
Qed.

(** Emitting a signal twice is emitting it once: a second [clearInterval] on
    a cleared handle changes nothing. *)
Lemma emit_idempotent s c : emit s (emit s c) = emit s c.
Proof.
  unfold emit at 1. rewrite emit_listeners. unfold emit.
  generalize (listeners c) as ls. intros ls. revert c.
  induction ls as [|l ls IH]; intros c; simpl; [reflexivity|].
  destruct (Signal_eqb (fst l) s); [|apply IH].
  rewrite !clear_listeners_comm, IH. apply clearInterval_idempotent.
Qed.

Lemma due_clearInterval_None h h' c : due h c = None -> due h (clearInterval h' c) = None.
Proof. now destruct h, h'. Qed.

Lemma interval_callback_keeps_cleared h c :
  due h c = None -> due h (interval_callback c) = None.
Proof.
  intros Hd. unfold interval_callback, res_write.
  destruct (write_throws in_interval (clock c)).
  - now apply due_clearInterval_None.
  - now destruct h.
Qed.

Lemma heartbeat_callback_keeps_cleared h c :
  due h c = None -> due h (heartbeat_callback c) = None.
Proof.
  intros Hd. unfold heartbeat_callback, res_write.
  destruct (write_throws in_heartbeat (clock c)).
  - now apply due_clearInterval_None, due_clearInterval_None.
  - now destruct h.
Qed.

Lemma fire_keeps_cleared h h' p cb c :
  (forall x, due h x = None -> due h (cb x) = None) ->
  due h c = None -> due h (fire h' p cb c) = None.
Proof.
  intros Hcb Hd. unfold fire.
  destruct (due h' c) as [d|] eqn:E; [|exact Hd].
  destruct (d <=? clock c)%Z; [|exact Hd].
  apply Hcb. destruct h, h'; simpl in *; congruence.
Qed.

(** No code path re-arms a cleared timer. *)
Lemma react_keeps_cleared h c e : due h c = None -> due h (react c e) = None.
Proof.
  intros Hd. destruct e as [ms|s]; simpl.
  - unfold elapse. revert c Hd. induction (Z.to_nat ms) as [|n IH]; intros c Hd; simpl.
    + exact Hd.
    + apply IH. unfold tick. destruct (heartbeat_first _).
      * apply fire_keeps_cleared; [apply interval_callback_keeps_cleared|].
        apply fire_keeps_cleared; [apply heartbeat_callback_keeps_cleared|].
        now destruct h.
      * apply fire_keeps_cleared; [apply heartbeat_callback_keeps_cleared|].
        apply fire_keeps_cleared; [apply interval_callback_keeps_cleared|].
        now destruct h.
  - unfold emit. generalize (listeners c) as ls. intros ls. revert c Hd.
    induction ls as [|l ls IH]; intros c Hd; simpl.
    + exact Hd.
    + apply IH. destruct (Signal_eqb (fst l) s); [|exact Hd].
      now apply due_clearInterval_None.
Qed.

(** Along any trace a timer goes from armed to cleared at most once. *)
Lemma cancellations_at_most_once h es c : cancellations h es c <= 1.
Proof.
  assert (Hnone : forall es c, due h c = None -> cancellations h es c = 0).
  { clear. intros es. induction es as [|e es IH]; intros c Hd; simpl; [reflexivity|].
    unfold armed at 1. rewrite Hd. simpl. apply IH. now apply react_keeps_cleared. }
  revert c. induction es as [|e es IH]; intros c; simpl; [lia|].
  unfold armed. destruct (due h c) as [d|] eqn:E; simpl.
  - destruct (due h (react c e)) as [d'|] eqn:E'; simpl.
    + apply IH.
    + rewrite Hnone by exact E'. lia.
  - rewrite Hnone by now apply react_keeps_cleared. lia.
Qed.

(** A close signal clears both timers of an accepted connection, and ends
    all writing. *)
Lemma close_signal_terminates T0 es :
  write_throws in_handler T0 = false ->
  let c := emit req_close (connection_of (handler "GET" T0)) in
  silent c /\ written (run es c) = written c.
Proof.
  intros Hw c. subst c. rewrite (handler_get_ok T0 Hw). simpl connection_of.
  assert (Hs : silent (emit req_close
    (mkConnection (Some 200)
      [("Content-Type", ["text/event-stream"]);
       ("Cache-Control", ["no-cache, no-transform"]);
       ("Connection", ["keep-alive"]);
       ("Access-Control-Allow-Origin", ["*"]);
       ("Access-Control-Allow-Headers", ["Cache-Control"]);
       ("Access-Control-Allow-Methods", ["GET"])]
      [data_frame (mkHello "Hello World - Connected!" (toISOString T0))]
      false T0 (Some (T0 + 5000)%Z) (Some (T0 + 30000)%Z)
      [(req_close, interval); (req_end, interval); (res_error, interval);
       (req_close, heartbeat)]))) by (split; reflexivity).
  split; [exact Hs|]. now apply run_silent_written.
Qed.

End EmitterFacts.

Lemma periodic_frames_on_schedule_witness :
  let c := connection_of (handler (H := node_runtime) "GET" 0) in
  let periodic t :=
    "data: " +:+
    JSON_stringify (Runtime := node_runtime)
      (mkHello "Hello World" (toISOString (Runtime := node_runtime) t)) +:+ LF +:+ LF in
  written (elapse (H := node_runtime) 5000 c) = written c ++ [periodic (0 + 5000)%Z] /\
  written (elapse (H := node_runtime) 15000 c) =
    written c ++ [periodic (0 + 5000)%Z; periodic (0 + 10000)%Z; periodic (0 + 15000)%Z].
Proof.
  apply (periodic_frames_on_schedule (H := node_runtime) 0); reflexivity.
Defined.

Lemma non_get_rejected_witness :
  exists c,
    handler (H := node_runtime) "POST" 0 = Returned c /\
    statusCode c = Some 405 /\
    headers c = [("Allow", ["GET"])] /\
    written c = ["Method " +:+ "POST" +:+ " Not Allowed"] /\
    finished c = true /\
    interval_due c = None /\ heartbeat_due c = None /\ listeners c = [] /\
    exists t, run (H := node_runtime) [Emit req_close; Elapse 60000] c = with_clock t c.
Proof.
  apply (non_get_rejected (H := node_runtime) "POST" 0 [Emit req_close; Elapse 60000]).
  discriminate.
Defined.

Lemma heartbeat_failure_stops_all_witness :
  let c := elapse (H := heartbeat_refused) 29999
             (connection_of (handler (H := heartbeat_refused) "GET" 0)) in
  interval_due (tick (H := heartbeat_refused) c) = None /\
  heartbeat_due (tick (H := heartbeat_refused) c) = None /\
  written (run (H := heartbeat_refused) [Elapse 60000] (tick (H := heartbeat_refused) c)) =
    written (tick (H := heartbeat_refused) c).
Proof.
  apply (heartbeat_failure_stops_all (H := heartbeat_refused) _ 30000 [Elapse 60000]).
  - vm_compute. reflexivity.
  - vm_compute. discriminate.
  - vm_compute. reflexivity.
Defined.

(** C1: the claim fails on the code.  After an end-of-stream signal, and
    likewise after a response error, the data timer is cleared but the
    heartbeat timer is not: 30000 ms after the connection was accepted a
    heartbeat frame is written.  The same happens after a write failure of
    the data timer, whose catch block clears the data timer only. *)
Theorem heartbeat_written_after_termination :
  written (run (H := node_runtime) [Emit req_end; Elapse 30000] (accepted node_runtime)) =
    written (accepted node_runtime) ++ [": heartbeat" +:+ LF +:+ LF] /\
  written (run (H := node_runtime) [Emit res_error; Elapse 30000] (accepted node_runtime)) =
    written (accepted node_runtime) ++ [": heartbeat" +:+ LF +:+ LF] /\
  (interval_due (run (H := data_refused) [Elapse 5000] (accepted data_refused)) = None /\
   written (run (H := data_refused) [Elapse 5000; Elapse 25000] (accepted data_refused)) =
     written (accepted data_refused) ++ [": heartbeat" +:+ LF +:+ LF]).
Proof.
  split; [|split; [|split]]; vm_compute; reflexivity.
Qed.

(** C2: the claim fails on the code.  An end-of-stream signal and a response
    error, alone or repeated, leave the heartbeat timer armed: it is
    cancelled zero times, while the data timer is cancelled once.  Only a
    close signal cancels both. *)
Theorem heartbeat_not_cancelled_by_end_or_error :
  heartbeat_due (run (H := node_runtime) [Emit req_end] (accepted node_runtime)) = Some 30000%Z /\
  heartbeat_due (run (H := node_runtime) [Emit res_error] (accepted node_runtime)) = Some 30000%Z /\
  cancellations (H := node_runtime) heartbeat [Emit req_end; Emit res_error; Emit req_end]
    (accepted node_runtime) = 0 /\
  cancellations (H := node_runtime) interval [Emit req_end; Emit res_error; Emit req_end]
    (accepted node_runtime) = 1 /\
  cancellations (H := node_runtime) heartbeat [Emit req_end; Emit req_close; Emit res_error]
    (accepted node_runtime) = 1.
Proof.
  split; [|split; [|split; [|split]]]; vm_compute; reflexivity.
Qed.

(** * Properties of number rounding *)

Lemma rne_inject_Z k : rne (inject_Z k) = k.
Proof.
  unfold rne. rewrite Qfloor_Z.
  destruct (Qcompare_spec (inject_Z k - inject_Z k) (1 # 2)) as [E|E|E]; try lra.
  reflexivity.
Qed.

Lemma rne_mono x y : (x <= y)%Q -> (rne x <= rne y)%Z.
Proof.
  intros Hxy. pose proof (Qfloor_resp_le x y Hxy) as Hf.
  pose proof (Qfloor_le x) as Hx1. pose proof (Qlt_floor x) as Hx2.
  pose proof (Qfloor_le y) as Hy1. pose proof (Qlt_floor y) as Hy2.
  unfold rne.
  destruct (Z.eq_dec (Qfloor x) (Qfloor y)) as [E|E].
  - rewrite <- E in *.
    destruct (Qcompare_spec (x - inject_Z (Qfloor x)) (1 # 2)) as [Ex|Ex|Ex];
    destruct (Qcompare_spec (y - inject_Z (Qfloor x)) (1 # 2)) as [Ey|Ey|Ey];
    try lra; destruct (Z.even (Qfloor x)); lia.
  - assert (Qfloor x + 1 <= Qfloor y)%Z by lia.
    destruct (Qcompare_spec (x - inject_Z (Qfloor x)) (1 # 2)) as [Ex|Ex|Ex];
    destruct (Qcompare_spec (y - inject_Z (Qfloor y)) (1 # 2)) as [Ey|Ey|Ey];
    destruct (Z.even (Qfloor x)); destruct (Z.even (Qfloor y)); lia.
Qed.

Lemma Qdiv_lt_cross n d p b :
  (0 < d)%Q -> (0 < b)%Q -> (n * b < p * d)%Q -> (n / d < p / b)%Q.
Proof.
  intros Hd Hb H. apply Qlt_shift_div_l; [exact Hb|].
  unfold Qdiv. rewrite <- Qmult_assoc, (Qmult_comm (/ d)), Qmult_assoc.
  apply Qlt_shift_div_r; [exact Hd|]. exact H.
Qed.

Lemma Qdiv_le_cross n d p b :
  (0 < d)%Q -> (0 < b)%Q -> (n * b <= p * d)%Q -> (n / d <= p / b)%Q.
Proof.
  intros Hd Hb H. apply Qle_shift_div_l; [exact Hb|].
  unfold Qdiv. rewrite <- Qmult_assoc, (Qmult_comm (/ d)), Qmult_assoc.
  apply Qle_shift_div_r; [exact Hd|]. exact H.
Qed.

Lemma pow2_pos e : (0 < 2 ^ e)%Q.
Proof. now apply Qpower_0_lt. Qed.

Lemma pow2_succ e : (2 ^ (e + 1) == 2 * 2 ^ e)%Q.
Proof. rewrite Qpower_plus by discriminate. rewrite Qpower_1_r. apply Qmult_comm. Qed.

Lemma pow2_Z a : (0 <= a)%Z -> (inject_Z (2 ^ a) == 2 ^ a)%Q.
Proof. intros Ha. now rewrite Zpower_Qpower. Qed.

Lemma ilog2_spec x :
  (0 < x)%Q -> (2 ^ ilog2 x <= x)%Q /\ (x < 2 ^ (ilog2 x + 1))%Q.
Proof.
  intros Hx. unfold ilog2.
  destruct x as [n d]. assert (0 < n)%Z as Hn by (unfold Qlt in Hx; simpl in Hx; lia).
  cbn [Qnum Qden].
  set (a := Z.log2 n). set (b := Z.log2 (Z.pos d)).
  destruct (Z.log2_spec n Hn) as [Ha1 Ha2]. fold a in Ha1, Ha2.
  destruct (Z.log2_spec (Z.pos d) eq_refl) as [Hb1 Hb2]. fold b in Hb1, Hb2.
  pose proof (Z.log2_nonneg n) as Ha0. fold a in Ha0.
  pose proof (Z.log2_nonneg (Z.pos d)) as Hb0. fold b in Hb0.
  assert (2 ^ a <= inject_Z n)%Q as Qa1.
  { rewrite <- pow2_Z by exact Ha0. rewrite <- Zle_Qle. exact Ha1. }
  assert (inject_Z n < 2 ^ (a + 1))%Q as Qa2.
  { rewrite <- pow2_Z by lia. rewrite <- Zlt_Qlt. replace (a + 1)%Z with (Z.succ a) by lia. exact Ha2. }
  assert (2 ^ b <= inject_Z (Z.pos d))%Q as Qb1.
  { rewrite <- pow2_Z by exact Hb0. rewrite <- Zle_Qle. exact Hb1. }
  assert (inject_Z (Z.pos d) < 2 ^ (b + 1))%Q as Qb2.
  { rewrite <- pow2_Z by lia. rewrite <- Zlt_Qlt. replace (b + 1)%Z with (Z.succ b) by lia. exact Hb2. }
  assert (n # d == inject_Z n / inject_Z (Z.pos d))%Q as Ex by apply Qmake_Qdiv.
  assert (0 < inject_Z n)%Q as Pn by (rewrite Zlt_Qlt in Hn; exact Hn).
  assert (0 < inject_Z (Z.pos d))%Q as Pd by reflexivity.
  pose proof (pow2_pos a) as Pa. pose proof (pow2_pos b) as Pb.
  pose proof (pow2_succ a) as Sa. pose proof (pow2_succ b) as Sb.
  destruct (Qle_bool (2 ^ (a - b)) (n # d)) eqn:E.
  - apply Qle_bool_iff in E. split; [exact E|].
    replace (a - b + 1)%Z with (a + 1 - b)%Z by lia.
    rewrite Qpower_minus by discriminate. rewrite Ex.
    apply Qdiv_lt_cross; [exact Pd|exact Pb|]. nra.
  - assert (n # d < 2 ^ (a - b))%Q as E'.
    { apply Qnot_le_lt. intros C. apply Qle_bool_iff in C. congruence. }
    replace (a - b - 1 + 1)%Z with (a - b)%Z by lia. split; [|exact E'].
    replace (a - b - 1)%Z with (a - (b + 1))%Z by lia.
    rewrite Qpower_minus by discriminate. rewrite Ex.
    apply Qdiv_le_cross; [now apply pow2_pos|exact Pd|]. nra.
Qed.

Lemma ilog2_mono x y : (0 < x)%Q -> (x <= y)%Q -> (ilog2 x <= ilog2 y)%Z.
Proof.
  intros Hx Hxy.
  destruct (ilog2_spec x Hx) as [Lx _].
  destruct (ilog2_spec y) as [_ Uy]; [lra|].
  assert (2 ^ ilog2 x < 2 ^ (ilog2 y + 1))%Q as Hlt by lra.
  apply Qpower_lt_compat_l_inv in Hlt; [lia|reflexivity].
Qed.

Lemma nearest_eq x :
  (nearest x ==
   inject_Z (rne (x / 2 ^ (Z.max (ilog2 x) (-1022) - 52))) *
   2 ^ (Z.max (ilog2 x) (-1022) - 52))%Q.
Proof. unfold nearest. apply Qred_correct. Qed.

Lemma pow2_split a b : (2 ^ a * 2 ^ (b - a) == 2 ^ b)%Q.
Proof.
  rewrite <- Qpower_plus by discriminate. now replace (a + (b - a))%Z with b by lia.
Qed.

Lemma nearest_mono x y : (0 < x)%Q -> (x <= y)%Q -> (nearest x <= nearest y)%Q.
Proof.
  intros Hx Hxy. assert (0 < y)%Q as Hy by lra.
  rewrite (nearest_eq x), (nearest_eq y).
  pose proof (ilog2_mono x y Hx Hxy) as Hm.
  destruct (ilog2_spec x Hx) as [_ Ux]. destruct (ilog2_spec y Hy) as [Ly _].
  set (ex := Z.max (ilog2 x) (-1022)). set (ey := Z.max (ilog2 y) (-1022)).
  pose proof (pow2_pos (ex - 52)) as Pux. pose proof (pow2_pos (ey - 52)) as Puy.
  destruct (Z.eq_dec ex ey) as [E|E].
  - rewrite <- E. apply Qmult_le_compat_r; [|lra].
    rewrite <- Zle_Qle. apply rne_mono.
    apply Qmult_le_compat_r; [exact Hxy|]. apply Qlt_le_weak, Qinv_lt_0_compat. exact Pux.
  - assert (ex < ey)%Z as Hlt by lia. assert (ey = ilog2 y) as Ey by lia.
    apply Qle_trans with (2 ^ (ex + 1))%Q; [|apply Qle_trans with (2 ^ ey)%Q].
    + rewrite <- (pow2_split 53 (ex + 1)).
      replace (ex + 1 - 53)%Z with (ex - 52)%Z by lia.
      apply Qmult_le_compat_r; [|lra].
      pose proof (pow2_Z 53 ltac:(lia)) as E53.
      rewrite <- E53. rewrite <- Zle_Qle.
      apply Z.le_trans with (rne (inject_Z (2 ^ 53))); [|now rewrite rne_inject_Z].
      apply rne_mono.
      apply Qle_shift_div_r; [exact Pux|].
      rewrite E53.
      assert (2 ^ 53 * 2 ^ (ex - 52) == 2 ^ (ex + 1))%Q as ->.
      { rewrite <- (pow2_split 53 (ex + 1)). now replace (ex + 1 - 53)%Z with (ex - 52)%Z by lia. }
      apply Qle_trans with (2 ^ (ilog2 x + 1))%Q; [lra|].
      apply Qpower_le_compat_l; [lia|discriminate].
    + apply Qpower_le_compat_l; [lia|discriminate].
    + rewrite <- (pow2_split 52 ey) at 1.
      apply Qmult_le_compat_r; [|lra].
      pose proof (pow2_Z 52 ltac:(lia)) as E52.
      rewrite <- E52. rewrite <- Zle_Qle.
      apply Z.le_trans with (rne (inject_Z (2 ^ 52))); [now rewrite rne_inject_Z|].
      apply rne_mono.
      apply Qle_shift_div_l; [exact Puy|].
      rewrite E52. rewrite (pow2_split 52 ey). rewrite Ey. exact Ly.
Qed.

Lemma nearest_nonneg x : (0 < x)%Q -> (0 <= nearest x)%Q.
Proof.
  intros Hx. rewrite nearest_eq.
  pose proof (pow2_pos (Z.max (ilog2 x) (-1022) - 52)) as Pu.
  apply Qmult_le_0_compat; [|lra].
  replace 0%Q with (inject_Z 0) by reflexivity. rewrite <- Zle_Qle.
  apply Z.le_trans with (rne (inject_Z 0)); [now rewrite rne_inject_Z|].
  apply rne_mono.
  apply Qle_shift_div_l; [exact Pu|]. change (inject_Z 0) with 0%Q.
  rewrite Qmult_0_l. lra.
Qed.

Lemma round64_mono x y : (0 <= x)%Q -> (x <= y)%Q -> num_le (round64 x) (round64 y).
Proof.
  intros Hx Hxy. unfold round64.
  destruct (Qcompare_spec x 0) as [Ex|Ex|Ex]; [|lra|];
    destruct (Qcompare_spec y 0) as [Ey|Ey|Ey]; try lra.
  - simpl. lra.
  - destruct (Qle_bool (2 ^ 1024) (nearest y)); simpl; [exact I|].
    now apply nearest_nonneg.
  - pose proof (nearest_mono x y Ex Hxy) as Hn.
    destruct (Qle_bool (2 ^ 1024) (nearest x)) eqn:Ox;
      destruct (Qle_bool (2 ^ 1024) (nearest y)) eqn:Oy; simpl; try exact I; try exact Hn.
    apply Qle_bool_iff in Ox.
    assert (Qle_bool (2 ^ 1024) (nearest y) = true) as C
      by (apply Qle_bool_iff; eapply Qle_trans; [exact Ox|exact Hn]).
    congruence.
Qed.

Lemma round64_between a b x a' b' :
  (0 <= a)%Q -> (a <= x)%Q -> (x <= b)%Q ->
  round64 a = Fin a' -> round64 b = Fin b' ->
  exists d, round64 x = Fin d /\ (a' <= d)%Q /\ (d <= b')%Q.
Proof.
  intros Ha Hax Hxb Ea Eb.
  pose proof (round64_mono a x Ha Hax) as H1.
  pose proof (round64_mono x b ltac:(lra) Hxb) as H2.
  rewrite Ea in H1. rewrite Eb in H2.
  destruct (round64 x) as [d| | |]; simpl in *; try contradiction.
  exists d. now repeat split.
Qed.

(** *** The delay *)

Lemma table_is_min n :
  (nth n [1000; 2000; 4000; 8000; 16000] 30000 == Qmin (1000 * 2 ^ Z.of_nat n) 30000)%Q.
Proof.
  do 5 (destruct n as [|n]; [reflexivity|]).
  replace (nth (S (S (S (S (S n))))) [1000; 2000; 4000; 8000; 16000] 30000)%Q
    with 30000%Q by now destruct n.
  symmetry. apply Q.min_r.
  apply Qle_trans with (1000 * 2 ^ 5)%Q; [discriminate|].
  apply Qmult_le_l; [reflexivity|].
  apply Qpower_le_compat_l; [lia|discriminate].
Qed.

Lemma table_in n :
  In (nth n [1000; 2000; 4000; 8000; 16000] 30000)%Q
     [1000; 2000; 4000; 8000; 16000; 30000]%Q.
Proof.
  do 5 (destruct n as [|n]; [simpl; tauto|]).
  replace (nth (S (S (S (S (S n))))) [1000; 2000; 4000; 8000; 16000] 30000)%Q
    with 30000%Q by now destruct n.
  simpl. tauto.
Qed.

(** The delay before the jitter is the table, exactly. *)
Lemma getRetryDelay_base n :
  Math_min (num_mul (Fin baseDelay) (Math_pow 2 n)) (Fin maxDelay) =
  Fin (nth n [1000; 2000; 4000; 8000; 16000] 30000)%Q.
Proof.
  do 5 (destruct n as [|n]; [vm_compute; reflexivity|]).
  replace (nth (S (S (S (S (S n))))) [1000; 2000; 4000; 8000; 16000] 30000)%Q
    with 30000%Q by now destruct n.
  unfold Math_pow, baseDelay, maxDelay.
  assert (32 <= 2 ^ Z.of_nat (S (S (S (S (S n))))))%Q as Hp.
  { apply Qle_trans with (2 ^ 5)%Q; [discriminate|].
    apply Qpower_le_compat_l; [lia|discriminate]. }
  pose proof (round64_mono 32 _ ltac:(discriminate) Hp) as Hm.
  replace (round64 32) with (Fin 32) in Hm by (vm_compute; reflexivity).
  destruct (round64 (2 ^ Z.of_nat (S (S (S (S (S n)))))))
    as [p| | |]; cbn [num_le] in Hm; try contradiction.
  - cbn [num_mul].
    pose proof (round64_mono 32000 (1000 * p) ltac:(discriminate) ltac:(lra)) as Hq.
    replace (round64 32000) with (Fin 32000) in Hq by (vm_compute; reflexivity).
    destruct (round64 (1000 * p)) as [q| | |]; cbn [num_le] in Hq; try contradiction.
    + cbn [Math_min]. destruct (Qle_bool q 30000) eqn:E; [|reflexivity].
      apply Qle_bool_iff in E. lra.
    + reflexivity.
  - reflexivity.
Qed.

(** The jitter is a number from 0 to 1000. *)
Lemma jitter_bounds random :
  (0 <= random)%Q -> (random < 1)%Q ->
  exists j, num_mul (Fin random) (Fin 1000) = Fin j /\ (0 <= j)%Q /\ (j <= 1000)%Q.
Proof.
  intros H0 H1. cbn [num_mul].
  apply (round64_between 0 1000); try lra; vm_compute; reflexivity.
Qed.

Lemma sum_bounds t j :
  In t [1000; 2000; 4000; 8000; 16000; 30000]%Q -> (0 <= j)%Q -> (j <= 1000)%Q ->
  exists d, round64 (t + j) = Fin d /\ (t <= d)%Q /\ (d <= t + 1000)%Q.
Proof.
  intros Ht H0 H1.
  repeat (destruct Ht as [<-|Ht];
          [match goal with
           | |- exists d, round64 (?t + j) = _ /\ _ =>
               apply (round64_between t (t + 1000) (t + j) t (t + 1000));
               [discriminate|lra|lra|vm_compute; reflexivity|vm_compute; reflexivity]
           end|]).
  destruct Ht.
Qed.

Lemma getRetryDelay_bounds n random :
  (0 <= random)%Q -> (random < 1)%Q ->
  exists d,
    getRetryDelay n random = Fin d /\
    (nth n [1000; 2000; 4000; 8000; 16000] 30000 <= d)%Q /\
    (d <= nth n [1000; 2000; 4000; 8000; 16000] 30000 + 1000)%Q.
Proof.
  intros H0 H1. unfold getRetryDelay. rewrite getRetryDelay_base.
  destruct (jitter_bounds random H0 H1) as (j & -> & J0 & J1).
  cbn [num_add]. apply sum_bounds; [apply table_in|exact J0|exact J1].
Qed.

(** * Properties of the stream client *)

Section ClientFacts.
Context `{Browser}.

(** *** Projections of [teardown] and [connect] *)

Lemma teardown_sources c :
  sources (teardown c) =
  match eventSourceRef c with
  | Some i => alter (fun s => mkSource true (es_retryCount s)) i (sources c)
  | None => sources c
  end.
Proof.
  unfold teardown.
  destruct (eventSourceRef c) as [i|]; simpl;
    destruct (reconnectTimeoutRef c) as [t|]; reflexivity.
Qed.

Lemma teardown_timeouts c :
  timeouts (teardown c) =
  match reconnectTimeoutRef c with
  | Some t => alter (fun x => mkTimeout false (to_delay x) (to_retryCount x)) t (timeouts c)
  | None => timeouts c
  end.
Proof.
  unfold teardown.
  destruct (eventSourceRef c) as [i|]; simpl;
    destruct (reconnectTimeoutRef c) as [t|]; reflexivity.
Qed.

Lemma teardown_state c :
  helloData (teardown c) = helloData c /\
  error (teardown c) = error c /\
  connectionStatus (teardown c) = connectionStatus c /\
  retryCount (teardown c) = retryCount c /\
  lastUpdateTime (teardown c) = lastUpdateTime c /\
  eventSourceRef (teardown c) = eventSourceRef c /\
  reconnectTimeoutRef (teardown c) = reconnectTimeoutRef c /\
  constructed (teardown c) = constructed c /\
  mounted (teardown c) = mounted c.
Proof.
  unfold teardown.
  destruct (eventSourceRef c) as [i|] eqn:Ei; simpl;
    destruct (reconnectTimeoutRef c) as [t|] eqn:Et; simpl;
    rewrite ?Ei, ?Et; repeat (split; [reflexivity|]); reflexivity.
Qed.

(** [connect] spelled out field by field. *)
Lemma connect_unfold rc c :
  connect rc c =
  if EventSource_throws (constructed c) then
    mkComponent (helloData c) (Some "Failed to establish connection") disconnected
      (retryCount c) (lastUpdateTime c) (eventSourceRef c) (reconnectTimeoutRef c)
      (sources (teardown c)) (timeouts (teardown c)) (S (constructed c)) (mounted c)
  else
    mkComponent (helloData c) None connecting
      (retryCount c) (lastUpdateTime c) (Some (length (sources (teardown c))))
      (reconnectTimeoutRef c)
      (sources (teardown c) ++ [mkSource false rc]) (timeouts (teardown c))
      (S (constructed c)) (mounted c).
Proof.
  unfold connect.
  destruct (teardown_state c) as (E1 & E2 & E3 & E4 & E5 & E6 & E7 & E8 & E9).
  remember (teardown c) as c' eqn:Ec'. simpl. rewrite E8.
  destruct (EventSource_throws (constructed c));
    unfold setError, setConnectionStatus, with_constructed, with_eventSourceRef,
      with_sources; simpl; now rewrite ?E1, ?E4, ?E5, ?E6, ?E7, ?E9.
Qed.

(** *** The resource discipline is preserved *)

Lemma teardown_quiet c :
  disciplined c -> all_closed (teardown c) /\ none_pending (teardown c).
Proof.
  intros (Hs & Ht & _). split.
  - intros i s. rewrite teardown_sources.
    destruct (eventSourceRef c) as [j|] eqn:Ej.
    + destruct (decide (j = i)) as [->|Hne].
      * rewrite list_lookup_alter_eq. intros Hl.
        apply fmap_Some in Hl as (s0 & _ & ->). reflexivity.
      * rewrite list_lookup_alter_ne by exact Hne. intros Hl.
        destruct (es_closed s) eqn:Ec; [reflexivity|].
        specialize (Hs i s Hl Ec). congruence.
    + intros Hl. destruct (es_closed s) eqn:Ec; [reflexivity|].
      specialize (Hs i s Hl Ec). congruence.
  - intros t x. rewrite teardown_timeouts.
    destruct (reconnectTimeoutRef c) as [j|] eqn:Ej.
    + destruct (decide (j = t)) as [->|Hne].
      * rewrite list_lookup_alter_eq. intros Hl.
        apply fmap_Some in Hl as (x0 & _ & ->). reflexivity.
      * rewrite list_lookup_alter_ne by exact Hne. intros Hl.
        destruct (to_pending x) eqn:Ec; [|reflexivity].
        specialize (Ht t x Hl Ec). congruence.
    + intros Hl. destruct (to_pending x) eqn:Ec; [|reflexivity].
      specialize (Ht t x Hl Ec). congruence.
Qed.

Lemma quiet_disciplined c : all_closed c -> none_pending c -> disciplined c.
Proof.
  intros Hc Hp. split; [|split].
  - intros i s Hl Ho. rewrite (Hc i s Hl) in Ho. discriminate.
  - intros t x Hl Ho. rewrite (Hp t x Hl) in Ho. discriminate.
  - now left.
Qed.

(** After [connect], every stream that existed before is closed, no timer
    is pending, and the only stream that may be open is the new one. *)
Lemma connect_disciplined rc c :
  disciplined c ->
  disciplined (connect rc c) /\ none_pending (connect rc c) /\
  (forall i s, sources (connect rc c) !! i = Some s -> es_closed s = false ->
               es_retryCount s = rc).
Proof.
  intros Hd. destruct (teardown_quiet c Hd) as [Hc Hp].
  rewrite connect_unfold.
  destruct (EventSource_throws (constructed c)).
  - split; [|split].
    + apply quiet_disciplined; [exact Hc | exact Hp].
    + exact Hp.
    + simpl. intros i s Hl Ho. rewrite (Hc i s Hl) in Ho. discriminate.
  - assert (Hnew : forall i s,
        (sources (teardown c) ++ [mkSource false rc]) !! i = Some s ->
        es_closed s = false -> i = length (sources (teardown c)) /\ s = mkSource false rc).
    { intros i s Hl Ho.
      destruct (decide (i < length (sources (teardown c)))) as [Hlt|Hge].
      - rewrite lookup_app_l in Hl by exact Hlt.
        rewrite (Hc i s Hl) in Ho. discriminate.
      - rewrite lookup_app_r in Hl by lia.
        destruct (i - length (sources (teardown c))) as [|k] eqn:Ek; simpl in Hl.
        + inversion Hl. split; [lia|reflexivity].
        + discriminate. }
    split; [|split].
    + split; [|split].
      * intros i s Hl Ho. simpl in *. destruct (Hnew i s Hl Ho) as [-> _]. reflexivity.
      * intros t x Hl Ho. simpl in *. rewrite (Hp t x Hl) in Ho. discriminate.
      * right. exact Hp.
    + exact Hp.
    + simpl. intros i s Hl Ho. destruct (Hnew i s Hl Ho) as [_ ->]. reflexivity.
Qed.


Lemma close_quiet i s c :
  disciplined c -> sources c !! i = Some s -> es_closed s = false ->
  all_closed (close i c) /\ none_pending (close i c).
Proof.
  intros (Hs & Ht & Hx) Hl Ho. split.
  - intros j s'. simpl.
    destruct (decide (i = j)) as [->|Hne].
    + rewrite list_lookup_alter_eq. intros Hj.
      apply fmap_Some in Hj as (s0 & _ & ->). reflexivity.
    + rewrite list_lookup_alter_ne by exact Hne. intros Hj.
      destruct (es_closed s') eqn:Ec; [reflexivity|].
      pose proof (Hs i s Hl Ho). pose proof (Hs j s' Hj Ec). congruence.
  - destruct Hx as [Hc|Hp]; [|exact Hp].
    rewrite (Hc i s Hl) in Ho. discriminate.
Qed.

Lemma clearTimeout_quiet t x c :
  disciplined c -> timeouts c !! t = Some x -> to_pending x = true ->
  all_closed (clearTimeout t c) /\ none_pending (clearTimeout t c).
Proof.
  intros (Hs & Ht & Hx) Hl Ho. split.
  - destruct Hx as [Hc|Hp]; [exact Hc|].
    rewrite (Hp t x Hl) in Ho. discriminate.
  - intros j x'. simpl.
    destruct (decide (t = j)) as [->|Hne].
    + rewrite list_lookup_alter_eq. intros Hj.
      apply fmap_Some in Hj as (x0 & _ & ->). reflexivity.
    + rewrite list_lookup_alter_ne by exact Hne. intros Hj.
      destruct (to_pending x') eqn:Ec; [|reflexivity].
      pose proof (Ht t x Hl Ho). pose proof (Ht j x' Hj Ec). congruence.
Qed.

(** What [onerror] leaves behind on the live stream [i]. *)
Lemma onerror_spec i s random c :
  disciplined c -> sources c !! i = Some s -> es_closed s = false ->
  let rc := es_retryCount s in
  let c' := onerror i rc random c in
  all_closed c' /\ retryCount c' = retryCount c /\ mounted c' = mounted c /\
  if rc <? maxRetries then
    connectionStatus c' = reconnecting /\
    reconnectTimeoutRef c' = Some (length (timeouts c)) /\
    timeouts c' = timeouts c ++ [mkTimeout true (getRetryDelay rc random) rc] /\
    none_pending c
  else
    connectionStatus c' = disconnected /\
    error c' = Some "Connection failed after 10 attempts" /\
    none_pending c'.
Proof.
  intros Hd Hl Ho rc c'. subst c'.
  destruct (close_quiet i s c Hd Hl Ho) as [Hc Hp].
  unfold onerror. destruct (rc <? maxRetries); simpl.
  - repeat (split; [first [exact Hc | reflexivity]|]). exact Hp.
  - repeat (split; [first [exact Hc | reflexivity]|]). exact Hp.
Qed.

Lemma onerror_disciplined i s random c :
  disciplined c -> sources c !! i = Some s -> es_closed s = false ->
  disciplined (onerror i (es_retryCount s) random c).
Proof.
  intros Hd Hl Ho.
  destruct (onerror_spec i s random c Hd Hl Ho) as (Hc & _ & _ & Hb).
  split; [|split].
  - intros j s' Hj Hoj. rewrite (Hc j s' Hj) in Hoj. discriminate.
  - destruct (es_retryCount s <? maxRetries).
    + destruct Hb as (_ & Hr & Ht & Hp). intros t x. rewrite Hr, Ht. intros Hx Hpx.
      destruct (decide (t < length (timeouts c))) as [Hlt|Hge].
      * rewrite lookup_app_l in Hx by exact Hlt.
        rewrite (Hp t x Hx) in Hpx. discriminate.
      * apply lookup_lt_Some in Hx. rewrite length_app in Hx. simpl in Hx.
        f_equal. lia.
    + destruct Hb as (_ & _ & Hp). intros t x Hx Hpx.
      rewrite (Hp t x Hx) in Hpx. discriminate.
  - now left.
Qed.

(** *** Between events *)

Lemma connect_settled rc c :
  disciplined c -> rc = retryCount c -> mounted c = true -> settled (connect rc c).
Proof.
  intros Hd -> Hm. destruct (connect_disciplined (retryCount c) c Hd) as (Hd' & Hp & Hsrc).
  assert (retryCount (connect (retryCount c) c) = retryCount c) as Er
    by (rewrite connect_unfold; now destruct (EventSource_throws (constructed c))).
  assert (mounted (connect (retryCount c) c) = mounted c) as Em
    by (rewrite connect_unfold; now destruct (EventSource_throws (constructed c))).
  split; [exact Hd'|]. split.
  - split.
    + intros i s Hl Ho. rewrite Er. now apply (Hsrc i s).
    + intros t x Hl Ho. rewrite (Hp t x Hl) in Ho. discriminate.
  - rewrite Em, Hm. discriminate.
Qed.

Lemma commit_settled rendered c :
  disciplined c -> mounted c = true ->
  (retryCount c = rendered -> synced c) ->
  settled (commit rendered c).
Proof.
  intros Hd Hm Hs. unfold commit.
  destruct (Nat.eqb_spec (retryCount c) rendered) as [E|E].
  - split; [exact Hd|]. split; [now apply Hs|]. rewrite Hm. discriminate.
  - destruct (teardown_quiet c Hd) as [Hc Hp].
    destruct (teardown_state c) as (_ & _ & _ & Er & _ & _ & _ & _ & Em).
    rewrite <- Er. apply connect_settled.
    + now apply quiet_disciplined.
    + reflexivity.
    + now rewrite Em.
Qed.

Lemma settled_mounted c i s :
  settled c -> sources c !! i = Some s -> es_closed s = false -> mounted c = true.
Proof.
  intros (_ & _ & Hu) Hl Ho. destruct (mounted c); [reflexivity|].
  destruct (Hu eq_refl) as [Hc _]. rewrite (Hc i s Hl) in Ho. discriminate.
Qed.

Lemma settled_mounted_timer c t x :
  settled c -> timeouts c !! t = Some x -> to_pending x = true -> mounted c = true.
Proof.
  intros (_ & _ & Hu) Hl Ho. destruct (mounted c); [reflexivity|].
  destruct (Hu eq_refl) as [_ Hp]. rewrite (Hp t x Hl) in Ho. discriminate.
Qed.

(** Every event takes a settled component to a settled component. *)
Lemma step_settled e c c' : settled c -> step e c = Some c' -> settled c'.
Proof.
  intros Hs. pose proof Hs as (Hd & (Hss & Hst) & Hu). unfold step.
  destruct e as [i|i data now|i random|t| |]; cbn [dispatch].
  - destruct (sources c !! i) as [s|] eqn:Hl; [|discriminate].
    destruct (es_closed s) eqn:Ho; [discriminate|].
    pose proof (settled_mounted c i s Hs Hl Ho) as Hm.
    simpl. rewrite Hm. intros [= <-].
    apply commit_settled; [exact Hd | exact Hm |].
    simpl. intros E. split; simpl.
    + intros j s' Hj Hoj. rewrite (Hss j s' Hj Hoj). now symmetry.
    + intros j x Hj Hoj. rewrite (Hst j x Hj Hoj). now symmetry.
  - destruct (sources c !! i) as [s|] eqn:Hl; [|discriminate].
    destruct (es_closed s) eqn:Ho; [discriminate|].
    pose proof (settled_mounted c i s Hs Hl Ho) as Hm.
    unfold onmessage. destruct (JSON_parse data); simpl; rewrite Hm; intros [= <-].
    + apply commit_settled; [exact Hd | exact Hm | intros _; now split].
    + apply commit_settled; [exact Hd | exact Hm | intros _; now split].
  - destruct (sources c !! i) as [s|] eqn:Hl; [|discriminate].
    destruct (es_closed s) eqn:Ho; [discriminate|].
    pose proof (settled_mounted c i s Hs Hl Ho) as Hm.
    destruct (onerror_spec i s random c Hd Hl Ho) as (Hc & Er & Em & Hb).
    rewrite Em, Hm. intros [= <-].
    apply commit_settled.
    + now apply onerror_disciplined.
    + now rewrite Em.
    + intros _. split.
      * intros j s' Hj Hoj. rewrite (Hc j s' Hj) in Hoj. discriminate.
      * rewrite Er. destruct (es_retryCount s <? maxRetries).
        -- destruct Hb as (_ & _ & Ht & Hp). intros j x. rewrite Ht. intros Hx Hpx.
           destruct (decide (j < length (timeouts c))) as [Hlt|Hge].
           ++ rewrite lookup_app_l in Hx by exact Hlt.
              rewrite (Hp j x Hx) in Hpx. discriminate.
           ++ rewrite lookup_app_r in Hx by lia.
              destruct (j - length (timeouts c)) as [|k]; simpl in Hx; [|discriminate].
              inversion Hx. simpl. now apply (Hss i s).
        -- destruct Hb as (_ & _ & Hp). intros j x Hx Hpx.
           rewrite (Hp j x Hx) in Hpx. discriminate.
  - destruct (timeouts c !! t) as [x|] eqn:Hl; [|discriminate].
    destruct (to_pending x) eqn:Ho; [|discriminate].
    pose proof (settled_mounted_timer c t x Hs Hl Ho) as Hm.
    destruct (clearTimeout_quiet t x c Hd Hl Ho) as [Hc Hp].
    unfold timeout_callback.
    change (retryCount (clearTimeout t c)) with (retryCount c).
    set (c1 := setRetryCount (S (retryCount c)) (clearTimeout t c)).
    assert (disciplined c1) as Hd1 by now apply quiet_disciplined.
    destruct (connect_disciplined (to_retryCount x) c1 Hd1) as (Hd2 & _ & _).
    assert (retryCount (connect (to_retryCount x) c1) = S (retryCount c)) as Er
      by (rewrite connect_unfold; now destruct (EventSource_throws (constructed c1))).
    assert (mounted (connect (to_retryCount x) c1) = true) as Em
      by (rewrite connect_unfold; now destruct (EventSource_throws (constructed c1))).
    rewrite Em. intros [= <-].
    apply commit_settled; [exact Hd2 | exact Em | rewrite Er; lia].
  - destruct (connectionStatus c); try discriminate.
    destruct (mounted c) eqn:Hm; [|discriminate].
    unfold reconnect. set (c1 := setRetryCount 0 c).
    assert (disciplined c1) as Hd1 by exact Hd.
    destruct (connect_disciplined (retryCount c) c1 Hd1) as (Hd2 & Hp2 & Hsrc).
    assert (retryCount (connect (retryCount c) c1) = 0) as Er
      by (rewrite connect_unfold; now destruct (EventSource_throws (constructed c1))).
    assert (mounted (connect (retryCount c) c1) = true) as Em
      by (rewrite connect_unfold; destruct (EventSource_throws (constructed c1)); exact Hm).
    rewrite Em. intros [= <-].
    apply commit_settled; [exact Hd2 | exact Em |].
    rewrite Er. intros E. split.
    + intros j s Hj Hoj. rewrite Er, E. now apply (Hsrc j s).
    + intros j x Hj Hoj. rewrite (Hp2 j x Hj) in Hoj. discriminate.
  - destruct (mounted c) eqn:Hm; [|discriminate]. simpl. intros [= <-].
    destruct (teardown_quiet c Hd) as [Hc Hp].
    split; [now apply quiet_disciplined|]. split.
    + split.
      * intros j s Hj Hoj. rewrite (Hc j s Hj) in Hoj. discriminate.
      * intros j x Hj Hoj. rewrite (Hp j x Hj) in Hoj. discriminate.
    + intros _. now split.
Qed.

Lemma mount_settled : settled mount.
Proof.
  unfold mount. apply connect_settled; [|reflexivity|reflexivity].
  apply quiet_disciplined; intros i x Hl; simpl in Hl; rewrite lookup_nil in Hl;
    discriminate.
Qed.

Lemma steps_settled es c c' : settled c -> steps es c = Some c' -> settled c'.
Proof.
  revert c. induction es as [|e es IH]; intros c Hs; simpl.
  - now intros [= <-].
  - destruct (step e c) as [c1|] eqn:E; [|discriminate].
    apply IH. now apply (step_settled e c).
Qed.


(** *** Counting live objects *)

Lemma filter_none {A} (P : A -> Prop) `{forall x, Decision (P x)} (l : list A) :
  (forall i x, l !! i = Some x -> ~ P x) -> filter P l = [].
Proof.
  induction l as [|a l IH]; intros Hn; [reflexivity|].
  rewrite filter_cons_False by exact (Hn 0 a eq_refl).
  apply IH. intros i x Hl. exact (Hn (S i) x Hl).
Qed.

Lemma filter_at_most_one {A} (P : A -> Prop) `{forall x, Decision (P x)} (l : list A) :
  (forall i j x y, l !! i = Some x -> l !! j = Some y -> P x -> P y -> i = j) ->
  length (filter P l) <= 1.
Proof.
  induction l as [|a l IH]; intros Hu; [simpl; lia|].
  destruct (decide (P a)) as [Hp|Hp].
  - rewrite filter_cons_True by exact Hp.
    rewrite filter_none; [simpl; lia|].
    intros i x Hl Hx. specialize (Hu 0 (S i) a x eq_refl Hl Hp Hx). discriminate.
  - rewrite filter_cons_False by exact Hp. apply IH.
    intros i j x y Hi Hj Hx Hy. specialize (Hu (S i) (S j) x y Hi Hj Hx Hy). lia.
Qed.

Lemma all_closed_count c : all_closed c -> active_sources c = 0.
Proof.
  intros Hc. unfold active_sources. rewrite filter_none; [reflexivity|].
  intros i s Hl Ho. rewrite (Hc i s Hl) in Ho. discriminate.
Qed.

Lemma none_pending_count c : none_pending c -> pending_timeouts c = 0.
Proof.
  intros Hp. unfold pending_timeouts. rewrite filter_none; [reflexivity|].
  intros t x Hl Ho. rewrite (Hp t x Hl) in Ho. discriminate.
Qed.

Lemma disciplined_counts c :
  disciplined c -> active_sources c <= 1 /\ pending_timeouts c <= 1.
Proof.
  intros (Hs & Ht & _). split.
  - apply filter_at_most_one. intros i j x y Hi Hj Hx Hy.
    pose proof (Hs i x Hi Hx). pose proof (Hs j y Hj Hy). congruence.
  - apply filter_at_most_one. intros i j x y Hi Hj Hx Hy.
    pose proof (Ht i x Hi Hx). pose proof (Ht j y Hj Hy). congruence.
Qed.

(** The discipline also holds while an event is being handled, before the
    effect is committed. *)
Lemma dispatch_disciplined e c c' : settled c -> dispatch e c = Some c' -> disciplined c'.
Proof.
  intros Hs. pose proof Hs as (Hd & _ & _).
  destruct e as [i|i data now|i random|t| |]; cbn [dispatch].
  - destruct (sources c !! i) as [s|]; [|discriminate].
    destruct (es_closed s); [discriminate|]. now intros [= <-].
  - destruct (sources c !! i) as [s|]; [|discriminate].
    destruct (es_closed s); [discriminate|]. unfold onmessage.
    destruct (JSON_parse data); now intros [= <-].
  - destruct (sources c !! i) as [s|] eqn:Hl; [|discriminate].
    destruct (es_closed s) eqn:Ho; [discriminate|]. intros [= <-].
    now apply onerror_disciplined.
  - destruct (timeouts c !! t) as [x|] eqn:Hl; [|discriminate].
    destruct (to_pending x) eqn:Ho; [|discriminate]. intros [= <-].
    destruct (clearTimeout_quiet t x c Hd Hl Ho) as [Hc Hp].
    unfold timeout_callback. apply connect_disciplined.
    now apply quiet_disciplined.
  - destruct (connectionStatus c); try discriminate.
    destruct (mounted c); [|discriminate]. intros [= <-].
    unfold reconnect. now apply connect_disciplined.
  - destruct (mounted c); [|discriminate]. intros [= <-].
    destruct (teardown_quiet c Hd) as [Hc Hp]. now apply quiet_disciplined.
Qed.

(** C6: in every state the component reaches from its mount, at most one
    stream is open and at most one reconnect timer is pending; and a call of
    [connect] from such a state leaves every stream that existed closed and
    no timer pending, then, unless the constructor throws, sets the status
    to connecting and makes a new stream, the only open one, the current
    one. *)
Theorem connect_keeps_one_stream es c rc :
  steps es mount = Some c ->
  (active_sources c <= 1 /\ pending_timeouts c <= 1) /\
  (forall e c', dispatch e c = Some c' ->
     active_sources c' <= 1 /\ pending_timeouts c' <= 1) /\
  (forall i s, sources c !! i = Some s ->
     exists s', sources (connect rc c) !! i = Some s' /\ es_closed s' = true) /\
  pending_timeouts (connect rc c) = 0 /\
  (EventSource_throws (constructed c) = false ->
     connectionStatus (connect rc c) = connecting /\
     eventSourceRef (connect rc c) = Some (length (sources c)) /\
     sources (connect rc c) !! length (sources c) = Some (mkSource false rc) /\
     active_sources (connect rc c) = 1).
Proof.
  intros Hr. pose proof (steps_settled es mount c mount_settled Hr) as Hs.
  pose proof Hs as (Hd & _ & _).
  split; [now apply disciplined_counts|].
  split; [intros e c' He; now apply disciplined_counts, (dispatch_disciplined e c)|].
  destruct (teardown_quiet c Hd) as [Hc Hp].
  assert (Hlen : length (sources (teardown c)) = length (sources c)).
  { rewrite teardown_sources. destruct (eventSourceRef c); [apply length_alter|reflexivity]. }
  assert (Hold : forall i s, sources c !! i = Some s ->
            exists s', sources (teardown c) !! i = Some s' /\ es_closed s' = true).
  { intros i s Hl.
    destruct (lookup_lt_is_Some_2 (sources (teardown c)) i) as [s' Hs'].
    - rewrite Hlen. now apply lookup_lt_Some in Hl.
    - exists s'. split; [exact Hs'|]. now apply (Hc i s'). }
  rewrite connect_unfold. destruct (EventSource_throws (constructed c)); simpl.
  - split; [exact Hold|]. split; [|discriminate].
    now apply (none_pending_count (mkComponent _ _ _ _ _ _ _ _ _ _ _)).
  - split; [|split].
    + intros i s Hl. destruct (Hold i s Hl) as (s' & Hs' & Hcl).
      exists s'. split; [|exact Hcl]. rewrite lookup_app_l; [exact Hs'|].
      now apply lookup_lt_Some in Hs'.
    + now apply (none_pending_count (mkComponent _ _ _ _ _ _ _ _ _ _ _)).
    + intros _. split; [reflexivity|]. split; [now rewrite Hlen|]. split.
      * rewrite <- Hlen. rewrite lookup_app_r by lia. now rewrite Nat.sub_diag.
      * unfold active_sources. simpl. rewrite filter_app, length_app.
        rewrite (filter_none _ (sources (teardown c))).
        -- reflexivity.
        -- intros i s Hl Ho. rewrite (Hc i s Hl) in Ho. discriminate.
Qed.



(** *** Failures and retries *)

Lemma fail_spec c random :
  settled c -> live c ->
  exists c1,
    fail random c = Some c1 /\ settled c1 /\ retryCount c1 = retryCount c /\
    all_closed c1 /\ mounted c1 = true /\
    if retryCount c <? maxRetries then
      connectionStatus c1 = reconnecting /\
      reconnectTimeoutRef c1 = Some (length (timeouts c)) /\
      timeouts c1 =
        timeouts c ++ [mkTimeout true (getRetryDelay (retryCount c) random) (retryCount c)] /\
      none_pending c
    else
      connectionStatus c1 = disconnected /\
      error c1 = Some "Connection failed after 10 attempts" /\
      none_pending c1.
Proof.
  intros Hs (i & s & Hr & Hl & Ho).
  pose proof Hs as (Hd & (Hss & _) & _).
  pose proof (settled_mounted c i s Hs Hl Ho) as Hm.
  destruct (onerror_spec i s random c Hd Hl Ho) as (Hc & Er & Em & Hb).
  rewrite (Hss i s Hl Ho) in *.
  assert (E : fail random c = Some (onerror i (retryCount c) random c)).
  { unfold fail. rewrite Hr. unfold step. cbn [dispatch]. rewrite Hl, Ho.
    rewrite (Hss i s Hl Ho), Em, Hm. unfold commit. now rewrite Er, Nat.eqb_refl. }
  exists (onerror i (retryCount c) random c).
  split; [exact E|]. split.
  { unfold fail in E. rewrite Hr in E. now apply (step_settled _ _ _ Hs E). }
  split; [exact Er|]. split; [exact Hc|]. split; [now rewrite Em|]. exact Hb.
Qed.

Lemma retry_spec c t d r :
  (forall n, EventSource_throws n = false) ->
  settled c -> reconnectTimeoutRef c = Some t ->
  timeouts c !! t = Some (mkTimeout true d r) -> r = retryCount c ->
  exists c2,
    retry c = Some c2 /\ settled c2 /\ retryCount c2 = S r /\ live c2 /\
    connectionStatus c2 = connecting.
Proof.
  intros Hok Hs Hr Hl ->.
  pose proof (settled_mounted_timer c t _ Hs Hl eq_refl) as Hm.
  assert (exists c2, retry c = Some c2 /\ retryCount c2 = S (retryCount c) /\ live c2 /\
                     connectionStatus c2 = connecting) as (c2 & E & Er & Hlive & Hst).
  { unfold retry. rewrite Hr. unfold step. cbn [dispatch]. rewrite Hl. simpl to_pending.
    cbv iota. unfold timeout_callback. simpl to_retryCount.
    change (retryCount (clearTimeout t c)) with (retryCount c).
    set (c1 := setRetryCount (S (retryCount c)) (clearTimeout t c)).
    rewrite (connect_unfold (retryCount c) c1), Hok.
    set (c1' := mkComponent _ _ _ _ _ _ _ _ _ _ _).
    change (mounted c1') with (mounted c). rewrite Hm.
    unfold commit. change (retryCount c1') with (S (retryCount c)).
    destruct (Nat.eqb_spec (S (retryCount c)) (retryCount c)) as [E|_]; [lia|].
    rewrite (connect_unfold (S (retryCount c)) (teardown c1')), Hok.
    eexists. split; [reflexivity|].
    destruct (teardown_state c1') as (_ & _ & _ & Er & _).
    split; [simpl; exact Er|]. split; [|reflexivity].
    exists (length (sources (teardown (teardown c1')))), (mkSource false (S (retryCount c))).
    simpl. split; [reflexivity|]. split; [|reflexivity].
    rewrite lookup_app_r by lia. now rewrite Nat.sub_diag. }
  exists c2. split; [exact E|]. split; [|now split].
  unfold retry in E. rewrite Hr in E. now apply (step_settled _ _ _ Hs E).
Qed.

Lemma pending_after_fail c x :
  none_pending c -> to_pending x = true ->
  length (filter (fun y => to_pending y = true) (timeouts c ++ [x])) = 1.
Proof.
  intros Hp Hx. rewrite filter_app, length_app.
  rewrite (filter_none _ (timeouts c)).
  - now rewrite filter_cons_True.
  - intros t y Hl Hy. rewrite (Hp t y Hl) in Hy. discriminate.
Qed.

Lemma quiet_only_manual c e c' :
  all_closed c -> none_pending c -> step e c = Some c' -> e = ClickRetry \/ e = Unmount.
Proof.
  intros Hc Hp. unfold step.
  destruct e as [i|i data now|i random|t| |]; cbn [dispatch]; try (intros _; tauto).
  - destruct (sources c !! i) as [s|] eqn:Hl; [|discriminate].
    now rewrite (Hc i s Hl).
  - destruct (sources c !! i) as [s|] eqn:Hl; [|discriminate].
    now rewrite (Hc i s Hl).
  - destruct (sources c !! i) as [s|] eqn:Hl; [|discriminate].
    now rewrite (Hc i s Hl).
  - destruct (timeouts c !! t) as [x|] eqn:Hl; [|discriminate].
    now rewrite (Hp t x Hl).
Qed.

Lemma failures_from r rs c :
  (forall n, EventSource_throws n = false) ->
  settled c -> live c -> retryCount c = r -> r <= maxRetries ->
  (0 < length rs <= maxRetries - r ->
     exists c', failures rs c = Some c' /\ connectionStatus c' = reconnecting /\
                retryCount c' = r + length rs - 1 /\
                active_sources c' = 0 /\ pending_timeouts c' = 1) /\
  (length rs = S (maxRetries - r) ->
     exists c', failures rs c = Some c' /\ connectionStatus c' = disconnected /\
                error c' = Some "Connection failed after 10 attempts" /\
                retryCount c' = maxRetries /\ mounted c' = true /\
                active_sources c' = 0 /\ pending_timeouts c' = 0 /\
                forall e c'', step e c' = Some c'' -> e = ClickRetry \/ e = Unmount).
Proof.
  intros Hok. revert r c.
  induction rs as [|u rs IH]; intros r c Hs Hlive Hr Hle.
  { split; cbn [length]; intros; lia. }
  destruct (fail_spec c u Hs Hlive) as (c1 & E1 & Hs1 & Er1 & Hc1 & Hm1 & Hb).
  rewrite Hr in Hb, Er1.
  cbn [failures]. rewrite E1.
  destruct (Nat.ltb_spec r maxRetries) as [Hlt|Hge].
  - destruct Hb as (Hst & Href & Ht & Hp).
    destruct rs as [|u' rs].
    + split; [|cbn [length]; lia]. intros _. exists c1. split; [reflexivity|].
      split; [exact Hst|]. split; [cbn [length]; lia|].
      split; [now apply all_closed_count|].
      unfold pending_timeouts. rewrite Ht. now apply pending_after_fail.
    + destruct (retry_spec c1 (length (timeouts c)) (getRetryDelay r u) r Hok Hs1 Href)
        as (c2 & E2 & Hs2 & Er2 & Hlive2 & _).
      { rewrite Ht, lookup_app_r by lia. now rewrite Nat.sub_diag. }
      { now symmetry. }
      rewrite E2.
      destruct (IH (S r) c2 Hs2 Hlive2 Er2 ltac:(lia)) as [IH1 IH2].
      split.
      * intros Hlen. destruct IH1 as (c' & E & Hst' & Er' & Ha & Hq).
        { cbn [length] in *. lia. }
        exists c'. split; [exact E|]. split; [exact Hst'|].
        split; [cbn [length] in *; lia|]. now split.
      * intros Hlen. apply IH2. cbn [length] in *. lia.
  - assert (r = maxRetries) as -> by lia.
    destruct Hb as (Hst & Herr & Hp).
    split; [cbn [length]; lia|]. intros Hlen.
    destruct rs as [|u' rs]; [|cbn [length] in Hlen; lia].
    exists c1. split; [reflexivity|]. split; [exact Hst|]. split; [exact Herr|].
    split; [exact Er1|]. split; [exact Hm1|]. split; [now apply all_closed_count|].
    split; [now apply none_pending_count|].
    intros e c''. now apply quiet_only_manual.
Qed.


(** The delay of a retry is computed from the [retryCount] the failing
    stream closed over, and the count is incremented only when the timer
    fires. *)
Lemma backoff_uses_count_before_increment c random :
  (forall n, EventSource_throws n = false) ->
  settled c -> live c -> retryCount c < maxRetries ->
  exists c1 c2,
    fail random c = Some c1 /\
    timeouts c1 =
      timeouts c ++ [mkTimeout true (getRetryDelay (retryCount c) random) (retryCount c)] /\
    retryCount c1 = retryCount c /\
    retry c1 = Some c2 /\ retryCount c2 = S (retryCount c).
Proof.
  intros Hok Hs Hlive Hlt.
  destruct (fail_spec c random Hs Hlive) as (c1 & E1 & Hs1 & Er1 & _ & _ & Hb).
  destruct (Nat.ltb_spec (retryCount c) maxRetries) as [_|Hge]; [|lia].
  destruct Hb as (_ & Href & Ht & _).
  destruct (retry_spec c1 (length (timeouts c)) (getRetryDelay (retryCount c) random)
              (retryCount c) Hok Hs1 Href) as (c2 & E2 & _ & Er2 & _).
  { rewrite Ht, lookup_app_r by lia. now rewrite Nat.sub_diag. }
  { now symmetry. }
  exists c1, c2. repeat (split; [assumption|]). assumption.
Qed.

(** C4, as the code has it: the component gives up on the failure that
    follows the tenth retry.  From any state reached from the mount in which
    a stream is live and [retryCount] is 0, eleven consecutive failures
    (the constructor never throwing) end with status [disconnected], the
    error "Connection failed after 10 attempts", no open stream and no
    pending timer, so that no event but the Retry button (which is enabled)
    or the unmount can follow; each of the first ten failures leaves the
    status [reconnecting] with one retry pending. *)
Theorem gives_up_after_eleven_failures es c rs :
  (forall n, EventSource_throws n = false) ->
  steps es mount = Some c -> live c -> retryCount c = 0 ->
  length rs = S maxRetries ->
  (exists c',
     failures rs c = Some c' /\
     connectionStatus c' = disconnected /\
     error c' = Some "Connection failed after 10 attempts" /\
     active_sources c' = 0 /\ pending_timeouts c' = 0 /\
     (forall e c'', step e c' = Some c'' -> e = ClickRetry \/ e = Unmount) /\
     (exists c'', step ClickRetry c' = Some c'')) /\
  (forall k, 0 < k <= maxRetries ->
     exists ck,
       failures (take k rs) c = Some ck /\
       connectionStatus ck = reconnecting /\ pending_timeouts ck = 1).
Proof.
  intros Hok Hr Hlive Hz Hlen.
  pose proof (steps_settled es mount c mount_settled Hr) as Hs.
  split.
  - destruct (failures_from 0 rs c Hok Hs Hlive Hz ltac:(lia)) as [_ Hfin].
    destruct Hfin as (c' & E & Hst & Herr & _ & Hm & Ha & Hp & Honly).
    { rewrite Nat.sub_0_r. exact Hlen. }
    exists c'. repeat (split; [assumption|]).
    unfold step. cbn [dispatch]. rewrite Hst, Hm. eexists. reflexivity.
  - intros k Hk.
    destruct (failures_from 0 (take k rs) c Hok Hs Hlive Hz ltac:(lia)) as [Hpre _].
    destruct Hpre as (ck & E & Hst & _ & _ & Hp).
    { rewrite length_take, Nat.sub_0_r. lia. }
    exists ck. now repeat split.
Qed.

(** C3, as the code has it: for every value [random] of [Math.random()] in
    [0, 1) and every attempt index [n], [getRetryDelay n random] is a finite
    number of the closed interval from [min (1000 * 2^n) 30000] to that plus
    1000 (the sum is rounded, and can round up to the upper end).  The
    index is [retryCount] before it is incremented: when a live stream of a
    component with [retryCount] below [maxRetries] fails, the timer is
    scheduled with the delay [getRetryDelay (retryCount c) random] while
    [retryCount] stays as it is, and the count becomes its successor only
    when that timer fires. *)
Theorem backoff_delay_in_closed_window random :
  (0 <= random)%Q -> (random < 1)%Q ->
  (forall n, exists d,
     getRetryDelay n random = Fin d /\
     (Qmin (1000 * 2 ^ Z.of_nat n) 30000 <= d)%Q /\
     (d <= Qmin (1000 * 2 ^ Z.of_nat n) 30000 + 1000)%Q) /\
  (forall es c,
     (forall k, EventSource_throws k = false) ->
     steps es mount = Some c -> live c -> retryCount c < maxRetries ->
     exists c1 c2,
       fail random c = Some c1 /\
       timeouts c1 =
         timeouts c ++
         [mkTimeout true (getRetryDelay (retryCount c) random) (retryCount c)] /\
       retryCount c1 = retryCount c /\
       retry c1 = Some c2 /\
       retryCount c2 = S (retryCount c)).
Proof.
  intros H0 H1. split.
  - intros n. destruct (getRetryDelay_bounds n random H0 H1) as (d & E & Hlo & Hhi).
    exists d. split; [exact E|].
    pose proof (table_is_min n) as T.
    split; [now rewrite <- T|now rewrite <- T].
  - intros es c Hok Hr Hlive Hlt.
    pose proof (steps_settled es mount c mount_settled Hr) as Hs.
    apply (backoff_uses_count_before_increment c random Hok Hs Hlive Hlt).
Qed.

End ClientFacts.


Lemma connect_keeps_one_stream_witness :
  let c := mount (H := sample_browser) in
  (active_sources c <= 1 /\ pending_timeouts c <= 1) /\
  (forall e c', dispatch (H := sample_browser) e c = Some c' ->
     active_sources c' <= 1 /\ pending_timeouts c' <= 1) /\
  (forall i s, sources c !! i = Some s ->
     exists s', sources (connect (H := sample_browser) 0 c) !! i = Some s' /\
                es_closed s' = true) /\
  pending_timeouts (connect (H := sample_browser) 0 c) = 0 /\
  (EventSource_throws (Browser := sample_browser) (constructed c) = false ->
     connectionStatus (connect (H := sample_browser) 0 c) = connecting /\
     eventSourceRef (connect (H := sample_browser) 0 c) = Some (length (sources c)) /\
     sources (connect (H := sample_browser) 0 c) !! length (sources c) =
       Some (mkSource false 0) /\
     active_sources (connect (H := sample_browser) 0 c) = 1).
Proof.
  apply (connect_keeps_one_stream (H := sample_browser) [] _ 0). reflexivity.
Defined.

Lemma backoff_delay_in_closed_window_witness :
  let c := mount (H := sample_browser) in
  (forall n, exists d,
     getRetryDelay n (1 # 2) = Fin d /\
     (Qmin (1000 * 2 ^ Z.of_nat n) 30000 <= d)%Q /\
     (d <= Qmin (1000 * 2 ^ Z.of_nat n) 30000 + 1000)%Q) /\
  exists c1 c2,
    fail (H := sample_browser) (1 # 2) c = Some c1 /\
    timeouts c1 =
      timeouts c ++ [mkTimeout true (getRetryDelay (retryCount c) (1 # 2)) (retryCount c)] /\
    retryCount c1 = retryCount c /\
    retry (H := sample_browser) c1 = Some c2 /\
    retryCount c2 = S (retryCount c).
Proof.
  destruct (backoff_delay_in_closed_window (H := sample_browser) (1 # 2))
    as [Hwindow Hcount].
  - discriminate.
  - reflexivity.
  - split; [exact Hwindow|].
    apply (Hcount [] (mount (H := sample_browser))).
    + intros k. reflexivity.
    + reflexivity.
    + exists 0, (mkSource false 0). repeat split.
    + vm_compute. lia.
Defined.

Lemma gives_up_after_eleven_failures_witness :
  let c := mount (H := sample_browser) in
  let rs := repeat (1 # 2)%Q 11 in
  (exists c',
     failures (H := sample_browser) rs c = Some c' /\
     connectionStatus c' = disconnected /\
     error c' = Some "Connection failed after 10 attempts" /\
     active_sources c' = 0 /\ pending_timeouts c' = 0 /\
     (forall e c'', step (H := sample_browser) e c' = Some c'' ->
                    e = ClickRetry \/ e = Unmount) /\
     (exists c'', step (H := sample_browser) ClickRetry c' = Some c'')) /\
  (forall k, 0 < k <= maxRetries ->
     exists ck,
       failures (H := sample_browser) (take k rs) c = Some ck /\
       connectionStatus ck = reconnecting /\ pending_timeouts ck = 1).
Proof.
  apply (gives_up_after_eleven_failures (H := sample_browser) []).
  - intros n. reflexivity.
  - reflexivity.
  - exists 0, (mkSource false 0). repeat split.
  - reflexivity.
  - reflexivity.
Defined.

(** C4, as stated, fails: after ten consecutive failures from the mount the
    status is [reconnecting], not [disconnected], one timer is pending, and
    when it fires [connect] runs once more. *)
Lemma tenth_failure_still_retries :
  exists c c',
    failures (H := sample_browser) (repeat 0%Q 10) (mount (H := sample_browser)) = Some c /\
    connectionStatus c = reconnecting /\
    connectionStatus c <> disconnected /\
    pending_timeouts c = 1 /\
    retry (H := sample_browser) c = Some c' /\
    connectionStatus c' = connecting /\ active_sources c' = 1.
Proof.
  eexists. eexists.
  split; [vm_compute; reflexivity|].
  split; [reflexivity|].
  split; [discriminate|].
  split; [reflexivity|].
  split; [vm_compute; reflexivity|].
  split; reflexivity.
Qed.

(** C3, as stated, fails: [1 - 2^-53] is a number below 1, the largest one,
    and with it the delay of the first retry is exactly 2000, the upper end
    that the half-open interval leaves out; the timer of the first failure
    after the mount is scheduled with it. *)
Lemma backoff_delay_reaches_upper_end :
  let random := (9007199254740991 # 9007199254740992)%Q in
  (0 <= random)%Q /\ (random < 1)%Q /\
  round64 random = Fin random /\
  getRetryDelay 0 random = Fin 2000 /\
  (Qmin (1000 * 2 ^ Z.of_nat 0) 30000 + 1000 == 2000)%Q /\
  ~ (2000 < Qmin (1000 * 2 ^ Z.of_nat 0) 30000 + 1000)%Q /\
  exists c1,
    fail (H := sample_browser) random (mount (H := sample_browser)) = Some c1 /\
    timeouts c1 = [mkTimeout true (Fin 2000) 0].
Proof.
  cbv zeta.
  split; [discriminate|].
  split; [reflexivity|].
  split; [vm_compute; reflexivity|].
  split; [vm_compute; reflexivity|].
  split; [reflexivity|].
  split; [vm_compute; discriminate|].
  eexists. split; vm_compute; reflexivity.
Qed.


(** * Further properties of the stream emitter *)

Section EmitterMore.
Context `{Runtime}.

Lemma heartbeat_is_not_data d : heartbeat_frame <> data_frame d.
Proof. unfold heartbeat_frame, data_frame. simpl. discriminate. Qed.

(** *** Head of the response and listeners *)


Lemma same_head_refl c : same_head c c.
Proof. now repeat split. Qed.

Lemma same_head_trans c1 c2 c3 : same_head c1 c2 -> same_head c2 c3 -> same_head c1 c3.
Proof.
  intros (A1 & A2 & A3 & A4) (B1 & B2 & B3 & B4).
  repeat split; congruence.
Qed.

Lemma same_head_with_due h d c : same_head c (with_due h d c).
Proof. destruct h; now repeat split. Qed.

Lemma interval_callback_head c : same_head c (interval_callback c).
Proof.
  unfold interval_callback, res_write.
  destruct (write_throws in_interval (clock c)); now repeat split.
Qed.

Lemma heartbeat_callback_head c : same_head c (heartbeat_callback c).
Proof.
  unfold heartbeat_callback, res_write.
  destruct (write_throws in_heartbeat (clock c)); now repeat split.
Qed.

Lemma fire_head h p cb c :
  (forall x, same_head x (cb x)) -> same_head c (fire h p cb c).
Proof.
  intros Hcb. unfold fire. destruct (due h c) as [d|]; [|apply same_head_refl].
  destruct (d <=? clock c)%Z; [|apply same_head_refl].
  eapply same_head_trans; [apply (same_head_with_due h)|apply Hcb].
Qed.

Lemma tick_head c : same_head c (tick c).
Proof.
  unfold tick. destruct (heartbeat_first _).
  - eapply same_head_trans; [|apply fire_head, interval_callback_head].
    eapply same_head_trans; [|apply fire_head, heartbeat_callback_head].
    now repeat split.
  - eapply same_head_trans; [|apply fire_head, heartbeat_callback_head].
    eapply same_head_trans; [|apply fire_head, interval_callback_head].
    now repeat split.
Qed.

Lemma advance_head n c : same_head c (advance n c).
Proof.
  revert c. induction n as [|n IH]; intros c; simpl; [apply same_head_refl|].
  eapply same_head_trans; [apply tick_head|apply IH].
Qed.

Lemma emit_head s c : same_head c (emit s c).
Proof.
  unfold emit. generalize (listeners c) as ls. intros ls. revert c.
  induction ls as [|l ls IH]; intros c; simpl; [apply same_head_refl|].
  destruct (Signal_eqb (fst l) s); [|apply IH].
  eapply same_head_trans; [apply (same_head_with_due (snd l) None)|apply IH].
Qed.

Lemma run_head es c : same_head c (run es c).
Proof.
  unfold run. revert c. induction es as [|e es IH]; intros c; simpl; [apply same_head_refl|].
  eapply same_head_trans; [|apply IH].
  destruct e; [apply advance_head|apply emit_head].
Qed.

Lemma accepted_listeners T0 es :
  write_throws in_handler T0 = false ->
  listeners (run es (connection_of (handler "GET" T0))) =
    [(req_close, interval); (req_end, interval); (res_error, interval);
     (req_close, heartbeat)].
Proof.
  intros Hw.
  destruct (run_head es (connection_of (handler "GET" T0))) as (_ & _ & _ & E4).
  now rewrite E4, (handler_get_ok T0 Hw).
Qed.

(** X7: once a GET request is accepted the handler never touches the head
    of the response again: whatever happens, the status stays 200, the
    headers stay the six it sent, the response is never ended and the four
    listeners stay registered. *)
Theorem accepted_head_is_final T0 es :
  write_throws in_handler T0 = false ->
  let c := run es (connection_of (handler "GET" T0)) in
  statusCode c = Some 200 /\
  headers c =
    [("Content-Type", ["text/event-stream"]);
     ("Cache-Control", ["no-cache, no-transform"]);
     ("Connection", ["keep-alive"]);
     ("Access-Control-Allow-Origin", ["*"]);
     ("Access-Control-Allow-Headers", ["Cache-Control"]);
     ("Access-Control-Allow-Methods", ["GET"])] /\
  finished c = false /\
  listeners c =
    [(req_close, interval); (req_end, interval); (res_error, interval);
     (req_close, heartbeat)].
Proof.
  intros Hw c. subst c.
  destruct (run_head es (connection_of (handler "GET" T0))) as (E1 & E2 & E3 & E4).
  rewrite E1, E2, E3, E4, (handler_get_ok T0 Hw). now repeat split.
Qed.

(** *** Signals at any time *)

Lemma fold_clear_keeps_cleared s h ls c :
  due h c = None ->
  due h (fold_left (fun c l => if Signal_eqb (fst l) s then clearInterval (snd l) c else c)
           ls c) = None.
Proof.
  revert c. induction ls as [|l ls IH]; intros c Hd; simpl; [exact Hd|].
  apply IH. destruct (Signal_eqb (fst l) s); [|exact Hd].
  now apply due_clearInterval_None.
Qed.

Lemma Signal_eqb_refl s : Signal_eqb s s = true.
Proof. now destruct s. Qed.

Lemma due_clearInterval_same h c : due h (clearInterval h c) = None.
Proof. now destruct h. Qed.

Lemma emit_clears s h c : In (s, h) (listeners c) -> due h (emit s c) = None.
Proof.
  unfold emit. generalize (listeners c) as ls. intros ls. revert c.
  induction ls as [|l ls IH]; intros c; simpl; [tauto|].
  intros [->|Hin].
  - simpl. rewrite Signal_eqb_refl. apply fold_clear_keeps_cleared, due_clearInterval_same.
  - now apply IH.
Qed.

(** X2: a close signal ends an accepted connection at any point of its
    life: whatever happened before, both timers are cleared by the two close
    listeners, and whatever happens afterwards nothing more is written. *)
Theorem close_ends_connection_at_any_time T0 before after :
  write_throws in_handler T0 = false ->
  let c := run before (connection_of (handler "GET" T0)) in
  interval_due (emit req_close c) = None /\
  heartbeat_due (emit req_close c) = None /\
  written (run after (emit req_close c)) = written c.
Proof.
  intros Hw c.
  pose proof (accepted_listeners T0 before Hw) as Hl. fold c in Hl.
  assert (Hi : interval_due (emit req_close c) = None).
  { apply (emit_clears req_close interval). rewrite Hl. simpl. tauto. }
  assert (Hh : heartbeat_due (emit req_close c) = None).
  { apply (emit_clears req_close heartbeat). rewrite Hl. simpl. tauto. }
  split; [exact Hi|]. split; [exact Hh|].
  rewrite run_silent_written by now split. apply emit_written.
Qed.


(** *** After the data timer is cleared *)

Lemma repeat_app_one {A} (x : A) n : repeat x n ++ [x] = repeat x (S n).
Proof. induction n as [|n IH]; simpl; [reflexivity|]. now rewrite IH. Qed.

Lemma tick_without_interval c :
  interval_due c = None ->
  interval_due (tick c) = None /\
  exists n, written (tick c) = written c ++ repeat heartbeat_frame n.
Proof.
  intros Hi.
  assert (interval_due (fire heartbeat 30000 heartbeat_callback
                          (with_clock (clock c + 1) c)) = None /\
          exists n, written (fire heartbeat 30000 heartbeat_callback
                               (with_clock (clock c + 1) c)) =
                    written c ++ repeat heartbeat_frame n) as (Hi' & n & Hw).
  { unfold fire. simpl.
    destruct (heartbeat_due c) as [d|].
    - destruct (d <=? clock c + 1)%Z.
      + unfold heartbeat_callback, res_write. simpl.
        destruct (write_throws in_heartbeat (clock c + 1)); simpl.
        * split; [reflexivity|]. exists 0. simpl. now rewrite app_nil_r.
        * split; [exact Hi|]. now exists 1.
      + split; [exact Hi|]. exists 0. simpl. now rewrite app_nil_r.
    - split; [exact Hi|]. exists 0. simpl. now rewrite app_nil_r. }
  assert (forall x, interval_due x = None ->
                    fire interval 5000 interval_callback x = x) as Hid.
  { intros x Hx. unfold fire. simpl. now rewrite Hx. }
  unfold tick. destruct (heartbeat_first _).
  - rewrite Hid by exact Hi'. split; [exact Hi'|]. now exists n.
  - rewrite Hid by exact Hi. split; [exact Hi'|]. now exists n.
Qed.

Lemma advance_without_interval n c :
  interval_due c = None ->
  interval_due (advance n c) = None /\
  exists k, written (advance n c) = written c ++ repeat heartbeat_frame k.
Proof.
  revert c. induction n as [|n IH]; intros c Hi; simpl.
  - split; [exact Hi|]. exists 0. simpl. now rewrite app_nil_r.
  - destruct (tick_without_interval c Hi) as (Hi' & k1 & E1).
    destruct (IH (tick c) Hi') as (Hi'' & k2 & E2).
    split; [exact Hi''|]. exists (k1 + k2).
    now rewrite E2, E1, <- app_assoc, repeat_app.
Qed.

(** X3: once the data timer is cleared (by an end-of-stream signal, a
    response error, a close, or a failed write of its own), it stays cleared
    and no data frame is ever written again: everything the sink receives
    from then on is heartbeat frames. *)
Theorem only_heartbeats_after_data_timer_cleared c es :
  interval_due c = None ->
  interval_due (run es c) = None /\
  exists n, written (run es c) = written c ++ repeat heartbeat_frame n.
Proof.
  unfold run. revert c. induction es as [|e es IH]; intros c Hi; simpl.
  - split; [exact Hi|]. exists 0. simpl. now rewrite app_nil_r.
  - assert (interval_due (react c e) = None /\
            exists k, written (react c e) = written c ++ repeat heartbeat_frame k)
      as (Hi' & k1 & E1).
    { destruct e as [ms|s]; simpl.
      - now apply advance_without_interval.
      - split; [now apply (react_keeps_cleared interval c (Emit s))|].
        exists 0. simpl. now rewrite app_nil_r, emit_written. }
    destruct (IH (react c e) Hi') as (Hi'' & k2 & E2).
    split; [exact Hi''|]. exists (k1 + k2).
    now rewrite E2, E1, <- app_assoc, repeat_app.
Qed.

(** *** Cancelling, repeated signals, the sink *)

Lemma run_keeps_cleared h es c : due h c = None -> due h (run es c) = None.
Proof.
  unfold run. revert c. induction es as [|e es IH]; intros c Hd; simpl; [exact Hd|].
  apply IH. now apply react_keeps_cleared.
Qed.

(** X4: no code path re-arms a timer: a cleared timer stays cleared under
    every sequence of clock advances and signals, and along any such
    sequence each timer goes from armed to cleared at most once. *)
Theorem timer_is_never_rearmed h es c :
  negb (armed h c) && armed h (run es c) = false /\
  cancellations h es c <= 1.
Proof.
  split; [|apply cancellations_at_most_once].
  unfold armed. destruct (due h c) eqn:E; [reflexivity|].
  now rewrite (run_keeps_cleared h es c E).
Qed.

(** X5: delivering a signal a second time changes nothing, whatever state
    the connection is in: the listeners only call [clearInterval], which is
    a no-op on a cleared handle. *)
Theorem repeated_signal_changes_nothing s c es :
  emit s (emit s c) = emit s c /\
  run (Emit s :: Emit s :: es) c = run (Emit s :: es) c.
Proof.
  split; [apply emit_idempotent|].
  unfold run. simpl. now rewrite emit_idempotent.
Qed.

(** X6: the sink is append-only: what has been written after a sequence of
    events is still there, in the same order and at the front, after any
    continuation of that sequence. *)
Theorem sink_is_append_only es es' c :
  written (run es c) `prefix_of` written (run (es ++ es') c).
Proof.
  unfold run. rewrite fold_left_app. apply (run_grows es').
Qed.

(** *** Shape of the chunks *)

Lemma chunk_ok_mono lo hi hi' chunk :
  (hi <= hi')%Z -> chunk_ok lo hi chunk -> chunk_ok lo hi' chunk.
Proof.
  intros Hle [->|(t & Ht & Hc)]; [now left|].
  right. exists t. split; [lia|exact Hc].
Qed.

Lemma well_formed_with_clock lo t c :
  (clock c <= t)%Z -> well_formed_sink lo c -> well_formed_sink lo (with_clock t c).
Proof.
  intros Hle [Hlo Hall]. split; simpl; [lia|].
  eapply Forall_impl; [exact Hall|]. intros ch. now apply chunk_ok_mono.
Qed.

Lemma well_formed_with_due lo h d c :
  well_formed_sink lo c -> well_formed_sink lo (with_due h d c).
Proof. intros [Hlo Hall]. destruct h; now split. Qed.

Lemma interval_callback_well_formed lo c :
  well_formed_sink lo c -> well_formed_sink lo (interval_callback c).
Proof.
  intros [Hlo Hall]. unfold interval_callback, res_write.
  destruct (write_throws in_interval (clock c)).
  - now apply (well_formed_with_due lo interval None).
  - split; simpl; [exact Hlo|]. apply Forall_app. split; [exact Hall|].
    apply Forall_singleton. right. exists (clock c). split; [lia|now right].
Qed.

Lemma heartbeat_callback_well_formed lo c :
  well_formed_sink lo c -> well_formed_sink lo (heartbeat_callback c).
Proof.
  intros [Hlo Hall]. unfold heartbeat_callback, res_write.
  destruct (write_throws in_heartbeat (clock c)).
  - apply (well_formed_with_due lo interval None), (well_formed_with_due lo heartbeat None).
    now split.
  - split; simpl; [exact Hlo|]. apply Forall_app. split; [exact Hall|].
    apply Forall_singleton. now left.
Qed.

Lemma fire_well_formed lo h p cb c :
  (forall x, well_formed_sink lo x -> well_formed_sink lo (cb x)) ->
  well_formed_sink lo c -> well_formed_sink lo (fire h p cb c).
Proof.
  intros Hcb Hw. unfold fire. destruct (due h c) as [d|]; [|exact Hw].
  destruct (d <=? clock c)%Z; [|exact Hw].
  now apply Hcb, well_formed_with_due.
Qed.

Lemma tick_well_formed lo c : well_formed_sink lo c -> well_formed_sink lo (tick c).
Proof.
  intros Hw. unfold tick. destruct (heartbeat_first _).
  - apply fire_well_formed; [apply interval_callback_well_formed|].
    apply fire_well_formed; [apply heartbeat_callback_well_formed|].
    apply well_formed_with_clock; [lia|exact Hw].
  - apply fire_well_formed; [apply heartbeat_callback_well_formed|].
    apply fire_well_formed; [apply interval_callback_well_formed|].
    apply well_formed_with_clock; [lia|exact Hw].
Qed.

Lemma run_well_formed lo es c : well_formed_sink lo c -> well_formed_sink lo (run es c).
Proof.
  unfold run. revert c. induction es as [|e es IH]; intros c Hw; simpl; [exact Hw|].
  apply IH. destruct e as [ms|s]; simpl.
  - unfold elapse. revert c Hw. induction (Z.to_nat ms) as [|n IHn]; intros c Hw; simpl.
    + exact Hw.
    + now apply IHn, tick_well_formed.
  - unfold emit. generalize (listeners c) as ls. intros ls. revert c Hw.
    induction ls as [|l ls IHl]; intros c Hw; simpl; [exact Hw|].
    apply IHl. destruct (Signal_eqb (fst l) s); [|exact Hw].
    now apply well_formed_with_due.
Qed.

(** X8: whatever the sink does and whatever happens to the request, every
    chunk the handler has written for a GET request received at [T0] is the
    heartbeat literal or a data frame whose timestamp renders an instant
    between [T0] and now; no other text ever reaches the sink, and a
    heartbeat is never mistaken for a data frame. *)
Theorem sink_holds_only_frames T0 es :
  let c := run es (connection_of (handler "GET" T0)) in
  (T0 <= clock c)%Z /\
  Forall (fun chunk =>
            chunk = ": heartbeat" +:+ LF +:+ LF \/
            exists t m, (T0 <= t <= clock c)%Z /\
              (m = "Hello World - Connected!" \/ m = "Hello World") /\
              chunk = "data: " +:+ JSON_stringify (mkHello m (toISOString t)) +:+ LF +:+ LF /\
              chunk <> ": heartbeat" +:+ LF +:+ LF)
         (written c).
Proof.
  intros c.
  assert (Hw : well_formed_sink T0 c).
  { subst c. apply run_well_formed. unfold handler, res_write. simpl.
    destruct (write_throws in_handler T0); simpl.
    - split; simpl; [lia|constructor].
    - split; simpl; [lia|]. apply Forall_singleton. right. exists T0.
      split; [lia|now left]. }
  destruct Hw as [Hlo Hall]. split; [exact Hlo|].
  eapply Forall_impl; [exact Hall|]. intros ch [->|(t & Ht & [->| ->])].
  - now left.
  - right. exists t, "Hello World - Connected!". split; [exact Ht|].
    split; [now left|]. split; [reflexivity|].
    intros E. symmetry in E. now apply heartbeat_is_not_data in E.
  - right. exists t, "Hello World". split; [exact Ht|].
    split; [now right|]. split; [reflexivity|].
    intros E. symmetry in E. now apply heartbeat_is_not_data in E.
Qed.


(** *** The cadence on a sink that takes every write *)

Lemma schedule_heartbeats T0 k :
  length (filter (fun chunk => chunk = heartbeat_frame) (schedule T0 k)) = k / 6 /\
  length (schedule T0 k) = k + k / 6.
Proof.
  induction k as [|k [IH1 IH2]]; [now split|].
  cbn [schedule]. cbv zeta. rewrite filter_app, !length_app, IH1, IH2.
  pose proof (Nat.div_mod_eq k 6). pose proof (Nat.mod_upper_bound k 6 ltac:(lia)).
  pose proof (Nat.div_mod_eq (S k) 6). pose proof (Nat.mod_upper_bound (S k) 6 ltac:(lia)).
  assert (forall d, heartbeat_frame <> data_frame d) as Hne
    by (intros d; apply heartbeat_is_not_data).
  assert (forall t, periodic_frame t <> heartbeat_frame) as Hne'
    by (intros t E; symmetry in E; now apply heartbeat_is_not_data in E).
  destruct (Nat.eqb_spec (S k mod 6) 0) as [E|E].
  - destruct (heartbeat_first _).
    + rewrite filter_cons_True by reflexivity.
      rewrite filter_cons_False by apply Hne'. simpl length. split; lia.
    + rewrite filter_cons_False by apply Hne'.
      rewrite filter_cons_True by reflexivity. simpl length. split; lia.
  - rewrite filter_cons_False by apply Hne'. simpl length. split; lia.
Qed.

Lemma period_elapses T0 k n :
  (forall w t, write_throws w t = false) ->
  Z.of_nat n = 5000%Z ->
  let st j :=
    mkConnection (Some 200)
      [("Content-Type", ["text/event-stream"]);
       ("Cache-Control", ["no-cache, no-transform"]);
       ("Connection", ["keep-alive"]);
       ("Access-Control-Allow-Origin", ["*"]);
       ("Access-Control-Allow-Headers", ["Cache-Control"]);
       ("Access-Control-Allow-Methods", ["GET"])]
      (initial_frame T0 :: schedule T0 j) false (T0 + 5000 * Z.of_nat j)%Z
      (Some (T0 + 5000 * Z.of_nat j + 5000)%Z)
      (Some (T0 + 30000 * (Z.of_nat (j / 6) + 1))%Z)
      [(req_close, interval); (req_end, interval); (res_error, interval);
       (req_close, heartbeat)] in
  advance n (st k) = st (S k).
Proof.
  intros Hok Hn st. subst st. cbv beta. cbn [schedule]. cbv zeta.
  pose proof (Nat.div_mod_eq k 6) as D1.
  pose proof (Nat.mod_upper_bound k 6 ltac:(lia)) as D2.
  pose proof (Nat.div_mod_eq (S k) 6) as D3.
  pose proof (Nat.mod_upper_bound (S k) 6 ltac:(lia)) as D4.
  assert (Z.of_nat (S k) = Z.of_nat k + 1)%Z as D5 by lia.
  generalize dependent (Z.of_nat (S k)). generalize dependent (S k / 6).
  generalize dependent (S k mod 6). generalize dependent (k / 6).
  generalize dependent (k mod 6). intros r D2 q D1 r' D4 q' D3 zk D5.
  destruct n as [|m]; [simpl in Hn; lia|].
  replace (S m) with (m + 1)%nat by lia.
  rewrite advance_add, (advance_idle m).
  - cbn [advance]. unfold tick. simpl.
    replace (T0 + 5000 * Z.of_nat k + Z.of_nat m + 1)%Z with (T0 + 5000 * zk)%Z by lia.
    assert (T0 + 5000 * Z.of_nat k + 5000 = T0 + 5000 * zk)%Z as -> by lia.
    destruct (Nat.eqb_spec r' 0) as [E|E].
    + assert (T0 + 30000 * (Z.of_nat q + 1) = T0 + 5000 * zk)%Z as -> by lia.
      assert (T0 + 5000 * zk + 5000 = T0 + 30000 * (Z.of_nat q' + 1) - 25000)%Z as E5 by lia.
      assert (T0 + 5000 * zk + 30000 = T0 + 30000 * (Z.of_nat q' + 1))%Z as E30 by lia.
      destruct (heartbeat_first _); unfold fire; simpl; rewrite Z.leb_refl;
        unfold interval_callback, heartbeat_callback, res_write; simpl;
        rewrite ?Hok; simpl; rewrite ?Z.leb_refl; simpl; rewrite ?Hok;
        unfold with_written; simpl; rewrite <- ?app_assoc; simpl;
        unfold periodic_frame; rewrite E30; reflexivity.
    + assert (T0 + 5000 * zk < T0 + 30000 * (Z.of_nat q + 1))%Z as Hlt by lia.
      assert (T0 + 30000 * (Z.of_nat q + 1) = T0 + 30000 * (Z.of_nat q' + 1))%Z as -> by lia.
      destruct (heartbeat_first _); unfold fire; simpl;
        destruct (Z.leb_spec (T0 + 30000 * (Z.of_nat q' + 1)) (T0 + 5000 * zk)); try lia;
        simpl; rewrite ?Z.leb_refl;
        unfold interval_callback, res_write; simpl; rewrite !Hok; simpl;
        destruct (Z.leb_spec (T0 + 30000 * (Z.of_nat q' + 1)) (T0 + 5000 * zk)); try lia;
        unfold with_written; simpl; unfold periodic_frame; reflexivity.
  - simpl. intros d [= <-]. lia.
  - simpl. intros d [= <-]. lia.
Qed.

(** X1: on a sink that takes every write, after [k] periods of 5000 ms the
    sink of a connection accepted at [T0] holds the initial frame followed
    by exactly [k] periodic data frames, stamped [T0 + 5000], ...,
    [T0 + 5000 k] in that order, and one heartbeat next to every sixth of
    them, before it or after it as the runtime orders the two callbacks that
    expire together: [k / 6] heartbeats in all. *)
Theorem frames_follow_the_cadence T0 k :
  (forall w t, write_throws w t = false) ->
  let c := elapse (5000 * Z.of_nat k) (connection_of (handler "GET" T0)) in
  written c = initial_frame T0 :: schedule T0 k /\
  length (filter (fun chunk => chunk = ": heartbeat" +:+ LF +:+ LF) (written c)) = k / 6 /\
  length (written c) = 1 + k + k / 6 /\
  clock c = (T0 + 5000 * Z.of_nat k)%Z.
Proof.
  intros Hok c.
  assert (E : c =
    mkConnection (Some 200)
      [("Content-Type", ["text/event-stream"]);
       ("Cache-Control", ["no-cache, no-transform"]);
       ("Connection", ["keep-alive"]);
       ("Access-Control-Allow-Origin", ["*"]);
       ("Access-Control-Allow-Headers", ["Cache-Control"]);
       ("Access-Control-Allow-Methods", ["GET"])]
      (initial_frame T0 :: schedule T0 k) false (T0 + 5000 * Z.of_nat k)%Z
      (Some (T0 + 5000 * Z.of_nat k + 5000)%Z)
      (Some (T0 + 30000 * (Z.of_nat (k / 6) + 1))%Z)
      [(req_close, interval); (req_end, interval); (res_error, interval);
       (req_close, heartbeat)]).
  { subst c. unfold elapse. induction k as [|k IH].
    - rewrite (handler_get_ok T0 (Hok _ _)). simpl. do 2 f_equal; lia.
    - replace (Z.to_nat (5000 * Z.of_nat (S k)))
        with (Z.to_nat (5000 * Z.of_nat k) + Z.to_nat 5000)%nat by lia.
      rewrite advance_add, IH.
      apply (period_elapses T0 k (Z.to_nat 5000) Hok). lia. }
  rewrite E. simpl written. simpl clock.
  destruct (schedule_heartbeats T0 k) as [H1 H2].
  split; [reflexivity|]. split; [|split; [cbn [length]; lia|reflexivity]].
  rewrite filter_cons_False by (intros E'; symmetry in E'; now apply heartbeat_is_not_data in E').
  exact H1.
Qed.

End EmitterMore.

(** * Further properties of the stream client *)

Section ClientMore.
Context `{Browser}.

Lemma connect_fields rc c :
  retryCount (connect rc c) = retryCount c /\
  mounted (connect rc c) = mounted c /\
  helloData (connect rc c) = helloData c /\
  lastUpdateTime (connect rc c) = lastUpdateTime c.
Proof.
  rewrite connect_unfold. now destruct (EventSource_throws (constructed c)).
Qed.

(** What [connect] achieves, by outcome of the constructor. *)
Lemma connect_outcome rc c :
  disciplined c ->
  none_pending (connect rc c) /\
  if EventSource_throws (constructed c) then
    connectionStatus (connect rc c) = disconnected /\
    error (connect rc c) = Some "Failed to establish connection" /\
    all_closed (connect rc c)
  else
    connectionStatus (connect rc c) = connecting /\
    error (connect rc c) = None /\
    eventSourceRef (connect rc c) = Some (length (sources c)) /\
    sources (connect rc c) !! length (sources c) = Some (mkSource false rc) /\
    live (connect rc c) /\
    (forall i s, sources c !! i = Some s ->
       exists s', sources (connect rc c) !! i = Some s' /\ es_closed s' = true).
Proof.
  intros Hd. destruct (teardown_quiet c Hd) as [Hc Hp].
  assert (Hlen : length (sources (teardown c)) = length (sources c)).
  { rewrite teardown_sources. destruct (eventSourceRef c); [apply length_alter|reflexivity]. }
  rewrite connect_unfold. destruct (EventSource_throws (constructed c)).
  - split; [exact Hp|]. split; [reflexivity|]. split; [reflexivity|exact Hc].
  - split; [exact Hp|]. simpl. split; [reflexivity|]. split; [reflexivity|].
    split; [now rewrite Hlen|].
    assert (Hnew : (sources (teardown c) ++ [mkSource false rc]) !! length (sources c) =
                   Some (mkSource false rc)).
    { rewrite <- Hlen, lookup_app_r by lia. now rewrite Nat.sub_diag. }
    split; [exact Hnew|]. split.
    + exists (length (sources c)), (mkSource false rc). simpl.
      split; [now rewrite Hlen|]. now split.
    + intros i s Hl.
      destruct (lookup_lt_is_Some_2 (sources (teardown c)) i) as [s' Hs'].
      { rewrite Hlen. now apply lookup_lt_Some in Hl. }
      exists s'. split; [|now apply (Hc i s')].
      rewrite lookup_app_l; [exact Hs'|]. now apply lookup_lt_Some in Hs'.
Qed.

Lemma connect_healthy rc c :
  disciplined c -> retryCount c <= maxRetries ->
  (lastUpdateTime c = None -> helloData c = JNull) ->
  healthy (connect rc c).
Proof.
  intros Hd Hr Hpair.
  destruct (connect_fields rc c) as (Er & _ & Eh & El).
  destruct (connect_outcome rc c Hd) as [Hp Ho].
  split; [now rewrite Er|]. split.
  { intros t x Hl Hx. rewrite (Hp t x Hl) in Hx. discriminate. }
  split; [|now rewrite Eh, El].
  intros _. unfold status_ok.
  destruct (EventSource_throws (constructed c)).
  - destruct Ho as (-> & _ & Hc). now split.
  - destruct Ho as (-> & _ & _ & _ & Hl & _). exact Hl.
Qed.

Lemma commit_healthy rendered c :
  disciplined c -> healthy c -> healthy (commit rendered c).
Proof.
  intros Hd Hh. unfold commit.
  destruct (retryCount c =? rendered); [exact Hh|].
  destruct Hh as (Hr & _ & _ & Hpair).
  destruct (teardown_quiet c Hd) as [Hc Hp].
  destruct (teardown_state c) as (Eh & _ & _ & Er & El & _).
  apply connect_healthy.
  - now apply quiet_disciplined.
  - now rewrite Er.
  - now rewrite Eh, El.
Qed.

Lemma single_stream_live c i s :
  disciplined c -> sources c !! i = Some s -> es_closed s = false -> live c.
Proof.
  intros (Hs & _ & _) Hl Ho. exists i, s. split; [now apply (Hs i s)|]. now split.
Qed.

Lemma open_stream_none_pending c i s :
  disciplined c -> sources c !! i = Some s -> es_closed s = false -> none_pending c.
Proof.
  intros (_ & _ & [Hc|Hp]) Hl Ho; [|exact Hp].
  rewrite (Hc i s Hl) in Ho. discriminate.
Qed.

Lemma dispatch_healthy e c c' :
  settled c -> healthy c -> dispatch e c = Some c' -> healthy c'.
Proof.
  intros Hs (Hr & Hb & Hst & Hpair). pose proof Hs as (Hd & (Hss & Hts) & Hu).
  destruct e as [i|i data now|i random|t| |]; cbn [dispatch].
  - destruct (sources c !! i) as [s|] eqn:Hl; [|discriminate].
    destruct (es_closed s) eqn:Ho; [discriminate|]. intros [= <-].
    split; [simpl; lia|]. split; [exact Hb|]. split; [|exact Hpair].
    intros _. now apply (single_stream_live c i s).
  - destruct (sources c !! i) as [s|] eqn:Hl; [|discriminate].
    destruct (es_closed s) eqn:Ho; [discriminate|].
    pose proof (settled_mounted c i s Hs Hl Ho) as Hm.
    unfold onmessage. destruct (JSON_parse data) as [d|]; intros [= <-].
    + split; [exact Hr|]. split; [exact Hb|]. split.
      * intros _. now apply (single_stream_live c i s).
      * simpl. discriminate.
    + split; [exact Hr|]. split; [exact Hb|]. split; [|exact Hpair].
      intros _. exact (Hst Hm).
  - destruct (sources c !! i) as [s|] eqn:Hl; [|discriminate].
    destruct (es_closed s) eqn:Ho; [discriminate|]. intros [= <-].
    destruct (onerror_spec i s random c Hd Hl Ho) as (Hc & Er & Em & Hbr).
    assert (Hfields : helloData (onerror i (es_retryCount s) random c) = helloData c /\
                      lastUpdateTime (onerror i (es_retryCount s) random c) = lastUpdateTime c).
    { unfold onerror. now destruct (es_retryCount s <? maxRetries). }
    destruct Hfields as [Eh El].
    split; [now rewrite Er|].
    destruct (Nat.ltb_spec (es_retryCount s) maxRetries) as [Hlt|Hge].
    + destruct Hbr as (Est & Eref & Et & Hp).
      split; [|split; [|now rewrite Eh, El]].
      * intros t x. rewrite Et. intros Hx Hpx.
        destruct (decide (t < length (timeouts c))) as [Hlt'|Hge'].
        -- rewrite lookup_app_l in Hx by exact Hlt'.
           rewrite (Hp t x Hx) in Hpx. discriminate.
        -- rewrite lookup_app_r in Hx by lia.
           destruct (t - length (timeouts c)) as [|k]; simpl in Hx; [|discriminate].
           inversion Hx. simpl. exact Hlt.
      * intros _. unfold status_ok. rewrite Est.
        exists (length (timeouts c)), (mkTimeout true (getRetryDelay (es_retryCount s) random)
                                         (es_retryCount s)).
        split; [exact Eref|]. split; [|reflexivity].
        rewrite Et, lookup_app_r by lia. now rewrite Nat.sub_diag.
    + destruct Hbr as (Est & _ & Hp).
      split; [|split; [|now rewrite Eh, El]].
      * intros t x Hx Hpx. rewrite (Hp t x Hx) in Hpx. discriminate.
      * intros _. unfold status_ok. rewrite Est. now split.
  - destruct (timeouts c !! t) as [x|] eqn:Hl; [|discriminate].
    destruct (to_pending x) eqn:Ho; [|discriminate]. intros [= <-].
    destruct (clearTimeout_quiet t x c Hd Hl Ho) as [Hc Hp].
    unfold timeout_callback. apply connect_healthy.
    + now apply quiet_disciplined.
    + simpl. pose proof (Hb t x Hl Ho). rewrite <- (Hts t x Hl Ho). lia.
    + exact Hpair.
  - destruct (connectionStatus c); try discriminate.
    destruct (mounted c); [|discriminate]. intros [= <-].
    unfold reconnect. apply connect_healthy; [exact Hd|simpl; lia|exact Hpair].
  - destruct (mounted c); [|discriminate]. intros [= <-].
    destruct (teardown_quiet c Hd) as [Hc Hp].
    destruct (teardown_state c) as (Eh & _ & _ & Er & El & _).
    split; [simpl; now rewrite Er|]. split.
    + intros t x Hx Hpx. rewrite (Hp t x Hx) in Hpx. discriminate.
    + split; [discriminate|]. simpl. now rewrite Eh, El.
Qed.

Lemma step_healthy e c c' :
  settled c -> healthy c -> step e c = Some c' -> healthy c'.
Proof.
  intros Hs Hh. unfold step.
  destruct (dispatch e c) as [c1|] eqn:E; [|discriminate]. intros [= <-].
  pose proof (dispatch_healthy e c c1 Hs Hh E) as Hh1.
  destruct (mounted c1); [|exact Hh1].
  apply commit_healthy; [|exact Hh1]. now apply (dispatch_disciplined e c).
Qed.

Lemma mount_healthy : healthy mount.
Proof.
  unfold mount. apply connect_healthy.
  - apply quiet_disciplined; intros i x Hl; simpl in Hl; rewrite lookup_nil in Hl;
      discriminate.
  - simpl. unfold maxRetries. lia.
  - now split.
Qed.

Lemma steps_healthy es c c' :
  settled c -> healthy c -> steps es c = Some c' -> settled c' /\ healthy c'.
Proof.
  revert c. induction es as [|e es IH]; intros c Hs Hh; simpl.
  - intros [= <-]. now split.
  - destruct (step e c) as [c1|] eqn:E; [|discriminate].
    apply IH; [now apply (step_settled e c)|now apply (step_healthy e c)].
Qed.


Lemma reachable_sound es c :
  steps es mount = Some c -> settled c /\ healthy c.
Proof. apply steps_healthy; [apply mount_settled|apply mount_healthy]. Qed.

Lemma filter_at_least_one {A} (P : A -> Prop) `{forall x, Decision (P x)} (l : list A) i x :
  l !! i = Some x -> P x -> 1 <= length (filter P l).
Proof.
  intros Hl Hx. assert (x ∈ filter P l) as Hin.
  { apply list_elem_of_filter. split; [exact Hx|]. apply list_elem_of_lookup. now exists i. }
  destruct (filter P l); [inversion Hin|simpl; lia].
Qed.

Lemma live_counts c :
  disciplined c -> live c -> active_sources c = 1 /\ pending_timeouts c = 0.
Proof.
  intros Hd (i & s & _ & Hl & Ho).
  destruct (disciplined_counts c Hd) as [Ha _].
  pose proof (filter_at_least_one (fun s => es_closed s = false) (sources c) i s Hl Ho).
  split; [unfold active_sources in *; lia|].
  apply none_pending_count. now apply (open_stream_none_pending c i s).
Qed.

Lemma waiting_counts c :
  disciplined c -> waiting c -> active_sources c = 0 /\ pending_timeouts c = 1.
Proof.
  intros Hd (t & x & _ & Hl & Ho).
  destruct (disciplined_counts c Hd) as [_ Hp].
  pose proof (filter_at_least_one (fun x => to_pending x = true) (timeouts c) t x Hl Ho).
  split; [|unfold pending_timeouts in *; lia].
  apply all_closed_count. destruct Hd as (_ & _ & [Hc|Hn]); [exact Hc|].
  rewrite (Hn t x Hl) in Ho. discriminate.
Qed.

(** X13: in every state the component reaches, [retryCount] is at most
    [maxRetries], and a reconnect timer is pending only while it is below
    [maxRetries]. *)
Theorem retryCount_never_exceeds_maxRetries es c :
  steps es mount = Some c ->
  retryCount c <= 10 /\ (pending_timeouts c = 0 \/ retryCount c < 10).
Proof.
  intros Hr. destruct (reachable_sound es c Hr) as [Hs (Hb & Ht & _)].
  split; [exact Hb|].
  destruct Hs as (_ & (_ & Hts) & _).
  destruct (filter (fun x => to_pending x = true) (timeouts c)) as [|x l] eqn:E.
  - left. unfold pending_timeouts. now rewrite E.
  - right. assert (x ∈ filter (fun x => to_pending x = true) (timeouts c)) as Hin
      by (rewrite E; left).
    apply list_elem_of_filter in Hin as [Hp Hin].
    apply list_elem_of_lookup in Hin as [t Hl].
    rewrite <- (Hts t x Hl Hp). exact (Ht t x Hl Hp).
Qed.

(** X14: while the component is mounted its status tells the truth about
    what it holds: [connecting] and [connected] mean exactly one open stream
    and no pending timer, [reconnecting] means no open stream and exactly
    one pending timer, [disconnected] means neither.  So the Retry button is
    rendered exactly when nothing is in flight, and the component is never
    left with nothing in flight and no button. *)
Theorem status_tells_the_truth es c :
  steps es mount = Some c -> mounted c = true ->
  match connectionStatus c with
  | connecting | connected => active_sources c = 1 /\ pending_timeouts c = 0
  | reconnecting => active_sources c = 0 /\ pending_timeouts c = 1
  | disconnected => active_sources c = 0 /\ pending_timeouts c = 0
  end /\
  offersRetry (connectionStatus c) =
    (active_sources c =? 0) && (pending_timeouts c =? 0) /\
  String.eqb (getStatusColor (connectionStatus c)) "bg-red-500" =
    offersRetry (connectionStatus c) /\
  String.eqb (getStatusColor (connectionStatus c)) "bg-yellow-500" =
    pulses (connectionStatus c).
Proof.
  intros Hr Hm. destruct (reachable_sound es c Hr) as [(Hd & _ & _) (_ & _ & Hst & _)].
  specialize (Hst Hm). unfold status_ok in Hst.
  destruct (connectionStatus c); simpl.
  - destruct (live_counts c Hd Hst) as [-> ->]. now repeat split.
  - destruct (live_counts c Hd Hst) as [-> ->]. now repeat split.
  - destruct Hst as [Hc Hp].
    rewrite (all_closed_count c Hc), (none_pending_count c Hp). now repeat split.
  - destruct (waiting_counts c Hd Hst) as [-> ->]. now repeat split.
Qed.

(** X15: when the [EventSource] constructor throws, [connect] ends in
    [disconnected] with the error "Failed to establish connection"; no
    stream is open and no timer is pending, so nothing retries by itself,
    and [retryCount] is left as it was. *)
Theorem constructor_failure_is_terminal es c rc :
  steps es mount = Some c ->
  EventSource_throws (constructed c) = true ->
  connectionStatus (connect rc c) = disconnected /\
  error (connect rc c) = Some "Failed to establish connection" /\
  active_sources (connect rc c) = 0 /\
  pending_timeouts (connect rc c) = 0 /\
  retryCount (connect rc c) = retryCount c /\
  offersRetry (connectionStatus (connect rc c)) = true.
Proof.
  intros Hr Ht. destruct (reachable_sound es c Hr) as [(Hd & _ & _) _].
  destruct (connect_outcome rc c Hd) as [Hp Ho]. rewrite Ht in Ho.
  destruct Ho as (Est & Eerr & Hc).
  destruct (connect_fields rc c) as (Er & _).
  rewrite Est. split; [reflexivity|]. split; [exact Eerr|].
  split; [now apply all_closed_count|]. split; [now apply none_pending_count|].
  now split.
Qed.

(** X12: unmounting closes the open stream and cancels the pending timer,
    and after it no event can occur any more: no stream event, no timer, no
    click. *)
Theorem unmount_stops_everything es c :
  steps es mount = Some c -> mounted c = true ->
  exists c',
    step Unmount c = Some c' /\
    active_sources c' = 0 /\ pending_timeouts c' = 0 /\
    forall e, step e c' = None.
Proof.
  intros Hr Hm. destruct (reachable_sound es c Hr) as [(Hd & _ & _) _].
  destruct (teardown_quiet c Hd) as [Hc Hp].
  exists (with_mounted false (teardown c)).
  split; [unfold step; cbn [dispatch]; now rewrite Hm|].
  split; [now apply (all_closed_count (with_mounted false (teardown c)))|].
  split; [now apply (none_pending_count (with_mounted false (teardown c)))|].
  intros e. destruct (step e (with_mounted false (teardown c))) as [c''|] eqn:E;
    [|reflexivity].
  exfalso.
  destruct (quiet_only_manual (with_mounted false (teardown c)) e c'' Hc Hp E) as [-> | ->];
    unfold step in E; cbn [dispatch] in E; simpl in E.
  - now destruct (connectionStatus (teardown c)).
  - discriminate.
Qed.


(** X9: an open event always leaves [retryCount] at 0, the error cleared
    and exactly one stream open.  When [retryCount] was already 0 the status
    becomes [connected] on the same stream.  When it was not, resetting it
    re-creates [connect], the effect runs again, and (the constructor not
    throwing) the stream that has just opened is closed and replaced by a
    new one, with the status back at [connecting]. *)
Theorem open_resets_count es c i s :
  (forall n, EventSource_throws n = false) ->
  steps es mount = Some c ->
  sources c !! i = Some s -> es_closed s = false ->
  exists c',
    step (EsOpen i) c = Some c' /\
    retryCount c' = 0 /\ error c' = None /\
    active_sources c' = 1 /\ pending_timeouts c' = 0 /\
    if retryCount c =? 0 then
      connectionStatus c' = connected /\ sources c' = sources c /\
      eventSourceRef c' = Some i
    else
      connectionStatus c' = connecting /\
      (exists s', sources c' !! i = Some s' /\ es_closed s' = true) /\
      eventSourceRef c' = Some (length (sources c)) /\
      sources c' !! length (sources c) = Some (mkSource false 0).
Proof.
  intros Hok Hr Hl Ho. destruct (reachable_sound es c Hr) as [Hs _].
  pose proof Hs as (Hd & _ & _).
  pose proof (settled_mounted c i s Hs Hl Ho) as Hm.
  assert (E : step (EsOpen i) c = Some (commit (retryCount c) (onopen c))).
  { unfold step. cbn [dispatch]. rewrite Hl, Ho. simpl. now rewrite Hm. }
  exists (commit (retryCount c) (onopen c)). split; [exact E|].
  pose proof (step_settled _ _ _ Hs E) as (Hd' & _ & _).
  unfold commit in *. simpl retryCount in *.
  destruct (retryCount c) as [|r] eqn:Erc; simpl in *.
  - destruct (live_counts (onopen c) Hd' (single_stream_live (onopen c) i s Hd' Hl Ho))
      as [Ha Hp].
    split; [reflexivity|]. split; [reflexivity|]. split; [exact Ha|]. split; [exact Hp|].
    split; [reflexivity|]. split; [reflexivity|].
    destruct Hd as (Hss & _). now apply (Hss i s).
  - set (c1 := teardown (onopen c)) in *.
    assert (Hd1 : disciplined c1).
    { destruct (teardown_quiet (onopen c)) as [Hc Hp]; [exact Hd|].
      now apply quiet_disciplined. }
    destruct (connect_fields 0 c1) as (Er & _).
    destruct (connect_outcome 0 c1 Hd1) as [Hp Hout]. rewrite Hok in Hout.
    destruct Hout as (Est & Eerr & Eref & Enew & Hlive & Hold).
    destruct (live_counts _ Hd' Hlive) as [Ha Hp'].
    assert (Hlen : length (sources c1) = length (sources c)).
    { unfold c1. rewrite teardown_sources. simpl.
      destruct (eventSourceRef c); [apply length_alter|reflexivity]. }
    assert (Hi : exists s1, sources c1 !! i = Some s1).
    { apply lookup_lt_is_Some_2. rewrite Hlen. now apply lookup_lt_Some in Hl. }
    destruct Hi as [s1 Hs1].
    split.
    { rewrite Er. unfold c1. now destruct (teardown_state (onopen c)) as (_ & _ & _ & -> & _). }
    split; [exact Eerr|]. split; [exact Ha|]. split; [exact Hp'|].
    split; [exact Est|]. split; [now apply (Hold i s1)|].
    rewrite <- Hlen. now split.
Qed.



Lemma dispatch_data e c c' :
  dispatch e c = Some c' ->
  match e with
  | EsMessage _ data now =>
      match JSON_parse data with
      | Some v => helloData c' = v /\ lastUpdateTime c' = Some now
      | None => helloData c' = helloData c /\ lastUpdateTime c' = lastUpdateTime c
      end
  | _ => helloData c' = helloData c /\ lastUpdateTime c' = lastUpdateTime c
  end.
Proof.
  destruct e as [i|i data now|i random|t| |]; cbn [dispatch].
  - destruct (sources c !! i) as [s|]; [|discriminate].
    destruct (es_closed s); [discriminate|]. now intros [= <-].
  - destruct (sources c !! i) as [s|]; [|discriminate].
    destruct (es_closed s); [discriminate|]. intros [= <-].
    unfold onmessage. now destruct (JSON_parse data).
  - destruct (sources c !! i) as [s|]; [|discriminate].
    destruct (es_closed s); [discriminate|]. intros [= <-].
    unfold onerror. now destruct (es_retryCount s <? maxRetries).
  - destruct (timeouts c !! t) as [x|]; [|discriminate].
    destruct (to_pending x); [|discriminate]. intros [= <-].
    unfold timeout_callback.
    destruct (connect_fields (to_retryCount x)
                (setRetryCount (S (retryCount (clearTimeout t c))) (clearTimeout t c)))
      as (_ & _ & -> & ->). now split.
  - destruct (connectionStatus c); try discriminate.
    destruct (mounted c); [|discriminate]. intros [= <-]. unfold reconnect.
    destruct (connect_fields (retryCount c) (setRetryCount 0 c)) as (_ & _ & -> & ->).
    now split.
  - destruct (mounted c); [|discriminate]. intros [= <-]. simpl.
    destruct (teardown_state c) as (-> & _ & _ & _ & -> & _). now split.
Qed.

Lemma commit_data rendered c :
  helloData (commit rendered c) = helloData c /\
  lastUpdateTime (commit rendered c) = lastUpdateTime c.
Proof.
  unfold commit. destruct (retryCount c =? rendered); [now split|].
  destruct (connect_fields (retryCount c) (teardown c)) as (_ & _ & -> & ->).
  destruct (teardown_state c) as (-> & _ & _ & _ & -> & _). now split.
Qed.

Lemma step_data e c c' :
  step e c = Some c' ->
  match e with
  | EsMessage _ data now =>
      match JSON_parse data with
      | Some v => helloData c' = v /\ lastUpdateTime c' = Some now
      | None => helloData c' = helloData c /\ lastUpdateTime c' = lastUpdateTime c
      end
  | _ => helloData c' = helloData c /\ lastUpdateTime c' = lastUpdateTime c
  end.
Proof.
  unfold step. destruct (dispatch e c) as [c0|] eqn:E0; [|discriminate].
  pose proof (dispatch_data e c c0 E0) as Hd.
  assert (helloData c' = helloData c0 /\ lastUpdateTime c' = lastUpdateTime c0 ->
          match e with
          | EsMessage _ data now =>
              match JSON_parse data with
              | Some v => helloData c' = v /\ lastUpdateTime c' = Some now
              | None => helloData c' = helloData c /\ lastUpdateTime c' = lastUpdateTime c
              end
          | _ => helloData c' = helloData c /\ lastUpdateTime c' = lastUpdateTime c
          end) as Hk.
  { intros [-> ->]. exact Hd. }
  destruct (mounted c0).
  - intros [= <-]. apply Hk, commit_data.
  - intros [= <-]. now apply Hk.
Qed.

(** X17: the data on display changes only when a message parses: through
    errors, retries, reconnects, payloads on which [JSON.parse] throws and
    the unmount, the stored value and its arrival time stay as they are.
    An arrival time, once recorded, is never cleared, and before the first
    one is recorded the data is [null]. *)
Theorem only_a_message_changes_the_data es c es' c' :
  steps es mount = Some c -> steps es' c = Some c' ->
  (lastUpdateTime c = None -> helloData c = JNull) /\
  (lastUpdateTime c <> None -> lastUpdateTime c' <> None) /\
  (Forall stores_nothing es' ->
     helloData c' = helloData c /\ lastUpdateTime c' = lastUpdateTime c).
Proof.
  intros Hr Hr'. destruct (reachable_sound es c Hr) as [_ (_ & _ & _ & Hpair)].
  split; [exact Hpair|]. clear Hr Hpair. revert c Hr'.
  induction es' as [|e es' IH]; intros c; simpl.
  - intros [= <-]. now split.
  - destruct (step e c) as [c1|] eqn:E; [|discriminate]. intros Hr'.
    destruct (IH c1 Hr') as [IH1 IH2].
    pose proof (step_data e c c1 E) as Hd.
    split.
    + intros Hset. apply IH1.
      destruct e as [i|i data now|i random|t| |];
        try (destruct Hd as [_ ->]; exact Hset).
      destruct (JSON_parse data) as [v|]; destruct Hd as [_ ->]; [discriminate|exact Hset].
    + intros Hall. apply List.Forall_cons_iff in Hall as [He Hall].
      destruct (IH2 Hall) as [-> ->].
      destruct e as [i|i data now|i random|t| |]; try exact Hd.
      simpl in He. now rewrite He in Hd.
Qed.

(** X16: before the jitter the delay is exactly the table 1000, 2000, 4000,
    8000, 16000 for attempts 0 to 4 and 30000 from attempt 5 on (the power
    of two overflows to infinity from attempt 1024 on, and the minimum is
    still 30000); the delay is the rounded sum of that and the jitter, so
    for the same jitter it never decreases from one attempt to the next. *)
Theorem getRetryDelay_table n m random :
  (n <= m)%nat -> (0 <= random)%Q -> (random < 1)%Q ->
  getRetryDelay n random =
    num_add (Fin (nth n [1000; 2000; 4000; 8000; 16000] 30000)%Q)
            (num_mul (Fin random) (Fin 1000)) /\
  num_le (getRetryDelay n random) (getRetryDelay m random).
Proof.
  intros Hle H0 H1. unfold getRetryDelay. rewrite !getRetryDelay_base.
  split; [reflexivity|].
  destruct (jitter_bounds random H0 H1) as (j & -> & J0 & J1). cbn [num_add].
  pose proof (table_is_min n) as Tn. pose proof (table_is_min m) as Tm.
  assert (0 <= Qmin (1000 * 2 ^ Z.of_nat n) 30000)%Q as Hpos.
  { apply Q.min_glb; [|discriminate].
    apply Qmult_le_0_compat; [discriminate|]. apply Qpower_0_le. discriminate. }
  assert (Qmin (1000 * 2 ^ Z.of_nat n) 30000 <= Qmin (1000 * 2 ^ Z.of_nat m) 30000)%Q as Hmono.
  { apply Q.min_le_compat_r. apply Qmult_le_l; [reflexivity|].
    apply Qpower_le_compat_l; [lia|discriminate]. }
  apply round64_mono; lra.
Qed.


(** *** The time spent backing off *)

Lemma alter_keeps_delays t (l : list TimeoutObj) :
  map to_delay (alter (fun x => mkTimeout false (to_delay x) (to_retryCount x)) t l) =
  map to_delay l.
Proof.
  revert t. induction l as [|x l IH]; intros t; [reflexivity|].
  destruct t as [|t]; simpl; [reflexivity|]. f_equal. apply IH.
Qed.

Lemma teardown_delays c : delays (teardown c) = delays c.
Proof.
  unfold delays. rewrite teardown_timeouts.
  destruct (reconnectTimeoutRef c); [apply alter_keeps_delays|reflexivity].
Qed.

Lemma connect_delays rc c : delays (connect rc c) = delays c.
Proof.
  rewrite connect_unfold.
  destruct (EventSource_throws (constructed c)); apply teardown_delays.
Qed.

Lemma commit_delays rendered c : delays (commit rendered c) = delays c.
Proof.
  unfold commit. destruct (retryCount c =? rendered); [reflexivity|].
  now rewrite connect_delays, teardown_delays.
Qed.

Lemma fail_delays c random c1 :
  settled c -> live c -> fail random c = Some c1 ->
  delays c1 =
    delays c ++
    (if retryCount c <? maxRetries then [getRetryDelay (retryCount c) random] else []).
Proof.
  intros Hs (i & s & Hr & Hl & Ho) E.
  pose proof Hs as (_ & (Hss & _) & _).
  unfold fail in E. rewrite Hr in E. unfold step in E. cbn [dispatch] in E.
  rewrite Hl, Ho, (Hss i s Hl Ho) in E.
  assert (Hd : delays (onerror i (retryCount c) random c) =
    delays c ++
    (if retryCount c <? maxRetries then [getRetryDelay (retryCount c) random] else [])).
  { unfold onerror, delays. destruct (retryCount c <? maxRetries); simpl.
    - now rewrite map_app.
    - now rewrite app_nil_r. }
  destruct (mounted (onerror i (retryCount c) random c)); inversion E; subst c1.
  - now rewrite commit_delays.
  - exact Hd.
Qed.

Lemma retry_delays c c2 : retry c = Some c2 -> delays c2 = delays c.
Proof.
  unfold retry. destruct (reconnectTimeoutRef c) as [t|]; [|discriminate].
  unfold step. cbn [dispatch].
  destruct (timeouts c !! t) as [x|]; [|discriminate].
  destruct (to_pending x); [|discriminate].
  assert (Hd : delays (timeout_callback (to_retryCount x) (clearTimeout t c)) = delays c).
  { unfold timeout_callback. rewrite connect_delays. unfold delays. simpl.
    apply alter_keeps_delays. }
  destruct (mounted _); intros [= <-]; [now rewrite commit_delays|exact Hd].
Qed.

Lemma failures_delays r rs c :
  (forall n, EventSource_throws n = false) ->
  settled c -> live c -> retryCount c = r -> r <= maxRetries ->
  length rs = S (maxRetries - r) ->
  exists c',
    failures rs c = Some c' /\
    delays c' = delays c ++ backoffs r (take (maxRetries - r) rs).
Proof.
  intros Hok. revert r c.
  induction rs as [|u rs IH]; intros r c Hs Hlive Hr Hle Hlen; [discriminate|].
  destruct (fail_spec c u Hs Hlive) as (c1 & E1 & Hs1 & Er1 & _ & _ & Hb).
  pose proof (fail_delays c u c1 Hs Hlive E1) as Hd1.
  rewrite Hr in Hb, Er1, Hd1.
  cbn [failures]. rewrite E1.
  destruct (Nat.ltb_spec r maxRetries) as [Hlt|Hge].
  - destruct Hb as (_ & Href & Ht & _).
    destruct rs as [|u' rs]; [cbn [length] in Hlen; lia|].
    destruct (retry_spec c1 (length (timeouts c)) (getRetryDelay r u) r Hok Hs1 Href)
      as (c2 & E2 & Hs2 & Er2 & Hlive2 & _).
    { rewrite Ht, lookup_app_r by lia. now rewrite Nat.sub_diag. }
    { now symmetry. }
    rewrite E2.
    destruct (IH (S r) c2 Hs2 Hlive2 Er2 ltac:(lia)) as (c' & E & Hd).
    { cbn [length] in *. lia. }
    exists c'. split; [exact E|].
    rewrite Hd, (retry_delays c1 c2 E2), Hd1, <- app_assoc.
    replace (maxRetries - r) with (S (maxRetries - S r)) by lia.
    reflexivity.
  - assert (r = maxRetries) as -> by lia.
    destruct rs as [|u' rs]; [|cbn [length] in Hlen; lia].
    exists c1. split; [reflexivity|].
    rewrite Hd1, Nat.sub_diag. reflexivity.
Qed.

(** X18: when every attempt fails from the mount on, the component
    schedules exactly ten reconnect timers before it gives up, with the
    delays [getRetryDelay 0], ..., [getRetryDelay 9] in that order; for
    values of [Math.random()] in [0, 1) every one of them is finite and
    they add up to at least 181000 ms and at most 191000 ms. *)
Theorem backoff_budget rs :
  (forall n, EventSource_throws n = false) ->
  length rs = S maxRetries ->
  Forall (fun u => 0 <= u /\ u < 1)%Q rs ->
  exists c',
    failures rs mount = Some c' /\
    connectionStatus c' = disconnected /\
    delays c' = backoffs 0 (take maxRetries rs) /\
    length (timeouts c') = maxRetries /\
    Forall (fun x => exists d, x = Fin d) (delays c') /\
    (181000 <= total_delay c')%Q /\ (total_delay c' <= 191000)%Q.
Proof.
  intros Hok Hlen Hrs.
  assert (Hlive : live mount).
  { unfold mount. destruct (connect_outcome (retryCount unmounted) (with_mounted true unmounted))
      as [_ Ho].
    - apply quiet_disciplined; intros i x Hl; simpl in Hl; rewrite lookup_nil in Hl;
        discriminate.
    - rewrite Hok in Ho. tauto. }
  assert (Hr0 : retryCount mount = 0).
  { unfold mount. now destruct (connect_fields (retryCount unmounted)
                                  (with_mounted true unmounted)) as (-> & _). }
  assert (Hd0 : delays mount = []).
  { unfold mount. now rewrite connect_delays. }
  destruct (failures_delays 0 rs mount Hok mount_settled Hlive Hr0 ltac:(lia)) as (c' & E & Hd).
  { rewrite Nat.sub_0_r. exact Hlen. }
  destruct (failures_from 0 rs mount Hok mount_settled Hlive Hr0 ltac:(lia)) as [_ Hfin].
  destruct Hfin as (c2 & E2 & Hst & _).
  { rewrite Nat.sub_0_r. exact Hlen. }
  rewrite E in E2. inversion E2. subst c2. clear E2.
  rewrite Hd0, Nat.sub_0_r in Hd. simpl app in Hd.
  exists c'. split; [exact E|]. split; [exact Hst|]. split; [exact Hd|].
  unfold total_delay. rewrite Hd.
  unfold maxRetries in *.
  do 11 (destruct rs as [|? rs]; [discriminate|]).
  destruct rs; [|discriminate].
  split.
  { assert (length (delays c') = 10) as Hl by (rewrite Hd; reflexivity).
    unfold delays in Hl. now rewrite length_map in Hl. }
  repeat match goal with
         | H : Forall _ (_ :: _) |- _ => apply Forall_cons in H as [[? ?] H]
         end.
  cbn [take backoffs].
  repeat match goal with
         | H0 : (0 <= ?u)%Q, H1 : (?u < 1)%Q |- context [getRetryDelay ?n ?u] =>
             let d := fresh "d" in
             destruct (getRetryDelay_bounds n u H0 H1) as (d & -> & ? & ?);
             clear H0 H1
         end.
  cbn [nth] in *. split.
  { repeat (apply List.Forall_cons; [eexists; reflexivity|]). apply List.Forall_nil. }
  cbn [map millis fold_right]. split; lra.
Qed.

End ClientMore.

(** * Instances of the further properties *)

Lemma frames_follow_the_cadence_witness :
  let c := elapse (H := node_runtime) (5000 * Z.of_nat 18)
             (connection_of (handler (H := node_runtime) "GET" 0)) in
  written c = initial_frame (H := node_runtime) 0 :: schedule (H := node_runtime) 0 18 /\
  length (filter (fun chunk => chunk = ": heartbeat" +:+ LF +:+ LF) (written c)) = 18 / 6 /\
  length (written c) = 1 + 18 + 18 / 6 /\
  clock c = (0 + 5000 * Z.of_nat 18)%Z.
Proof.
  apply (frames_follow_the_cadence (H := node_runtime) 0 18). intros w t. reflexivity.
Defined.

(** On the concrete runtime the heartbeat of the sixth period is written
    before that period's data frame. *)
Example sixth_period_on_node :
  drop 6 (written (elapse (H := node_runtime) 30000 (accepted node_runtime))) =
  [heartbeat_frame; periodic_frame (H := node_runtime) 30000].
Proof. vm_compute. reflexivity. Qed.

Lemma close_ends_connection_at_any_time_witness :
  let c := run (H := node_runtime) [Elapse 12000]
             (connection_of (handler (H := node_runtime) "GET" 0)) in
  interval_due (emit req_close c) = None /\
  heartbeat_due (emit req_close c) = None /\
  written (run (H := node_runtime) [Elapse 60000] (emit req_close c)) = written c.
Proof.
  apply (close_ends_connection_at_any_time (H := node_runtime) 0 [Elapse 12000]
           [Elapse 60000]).
  reflexivity.
Defined.

Lemma only_heartbeats_after_data_timer_cleared_witness :
  let c := emit req_end (accepted node_runtime) in
  interval_due (run (H := node_runtime) [Elapse 60000] c) = None /\
  exists n, written (run (H := node_runtime) [Elapse 60000] c) =
            written c ++ repeat heartbeat_frame n.
Proof.
  apply (only_heartbeats_after_data_timer_cleared (H := node_runtime)
           (emit req_end (accepted node_runtime)) [Elapse 60000]).
  reflexivity.
Defined.

Lemma accepted_head_is_final_witness :
  let c := run (H := node_runtime) [Elapse 10000; Emit req_end]
             (connection_of (handler (H := node_runtime) "GET" 0)) in
  statusCode c = Some 200 /\
  headers c =
    [("Content-Type", ["text/event-stream"]);
     ("Cache-Control", ["no-cache, no-transform"]);
     ("Connection", ["keep-alive"]);
     ("Access-Control-Allow-Origin", ["*"]);
     ("Access-Control-Allow-Headers", ["Cache-Control"]);
     ("Access-Control-Allow-Methods", ["GET"])] /\
  finished c = false /\
  listeners c =
    [(req_close, interval); (req_end, interval); (res_error, interval);
     (req_close, heartbeat)].
Proof.
  apply (accepted_head_is_final (H := node_runtime) 0 [Elapse 10000; Emit req_end]).
  reflexivity.
Defined.

Lemma open_resets_count_witness :
  exists c',
    step (H := sample_browser) (EsOpen 2) after_one_retry = Some c' /\
    retryCount c' = 0 /\ error c' = None /\
    active_sources c' = 1 /\ pending_timeouts c' = 0 /\
    if retryCount after_one_retry =? 0 then
      connectionStatus c' = connected /\ sources c' = sources after_one_retry /\
      eventSourceRef c' = Some 2
    else
      connectionStatus c' = connecting /\
      (exists s', sources c' !! 2 = Some s' /\ es_closed s' = true) /\
      eventSourceRef c' = Some (length (sources after_one_retry)) /\
      sources c' !! length (sources after_one_retry) = Some (mkSource false 0).
Proof.
  apply (open_resets_count (H := sample_browser) [EsError 0 (1 # 2); TimeoutFires 0]
           after_one_retry 2 (mkSource false 1)).
  - intros n. reflexivity.
  - vm_compute. reflexivity.
  - reflexivity.
  - reflexivity.
Defined.



Lemma unmount_stops_everything_witness :
  exists c',
    step (H := sample_browser) Unmount (mount (H := sample_browser)) = Some c' /\
    active_sources c' = 0 /\ pending_timeouts c' = 0 /\
    forall e, step (H := sample_browser) e c' = None.
Proof.
  apply (unmount_stops_everything (H := sample_browser) []); reflexivity.
Defined.

Lemma retryCount_never_exceeds_maxRetries_witness :
  retryCount gave_up <= 10 /\ (pending_timeouts gave_up = 0 \/ retryCount gave_up < 10).
Proof.
  apply (retryCount_never_exceeds_maxRetries (H := sample_browser) failing_trace).
  vm_compute. reflexivity.
Defined.

Lemma status_tells_the_truth_witness :
  match connectionStatus after_one_retry with
  | connecting | connected =>
      active_sources after_one_retry = 1 /\ pending_timeouts after_one_retry = 0
  | reconnecting =>
      active_sources after_one_retry = 0 /\ pending_timeouts after_one_retry = 1
  | disconnected =>
      active_sources after_one_retry = 0 /\ pending_timeouts after_one_retry = 0
  end /\
  offersRetry (connectionStatus after_one_retry) =
    (active_sources after_one_retry =? 0) && (pending_timeouts after_one_retry =? 0) /\
  String.eqb (getStatusColor (connectionStatus after_one_retry)) "bg-red-500" =
    offersRetry (connectionStatus after_one_retry) /\
  String.eqb (getStatusColor (connectionStatus after_one_retry)) "bg-yellow-500" =
    pulses (connectionStatus after_one_retry).
Proof.
  apply (status_tells_the_truth (H := sample_browser) [EsError 0 (1 # 2); TimeoutFires 0]).
  - vm_compute. reflexivity.
  - reflexivity.
Defined.

Lemma constructor_failure_is_terminal_witness :
  let c := mount (H := flaky_browser) in
  connectionStatus (connect (H := flaky_browser) 0 c) = disconnected /\
  error (connect (H := flaky_browser) 0 c) = Some "Failed to establish connection" /\
  active_sources (connect (H := flaky_browser) 0 c) = 0 /\
  pending_timeouts (connect (H := flaky_browser) 0 c) = 0 /\
  retryCount (connect (H := flaky_browser) 0 c) = retryCount c /\
  offersRetry (connectionStatus (connect (H := flaky_browser) 0 c)) = true.
Proof.
  apply (constructor_failure_is_terminal (H := flaky_browser) []); reflexivity.
Defined.

Lemma getRetryDelay_table_witness :
  getRetryDelay 2 (1 # 2) =
    num_add (Fin (nth 2 [1000; 2000; 4000; 8000; 16000] 30000)%Q)
            (num_mul (Fin (1 # 2)) (Fin 1000)) /\
  num_le (getRetryDelay 2 (1 # 2)) (getRetryDelay 7 (1 # 2)).
Proof.
  apply (getRetryDelay_table 2 7 (1 # 2)).
  - lia.
  - discriminate.
  - reflexivity.
Defined.

Lemma only_a_message_changes_the_data_witness :
  exists c c',
    steps (H := sample_browser) [EsMessage 0 sample_payload "t1"]
      (mount (H := sample_browser)) = Some c /\
    steps (H := sample_browser) [EsError 0 (1 # 2); TimeoutFires 0] c = Some c' /\
    (lastUpdateTime c = None -> helloData c = JNull) /\
    (lastUpdateTime c <> None -> lastUpdateTime c' <> None) /\
    (Forall (stores_nothing (H := sample_browser)) [EsError 0 (1 # 2); TimeoutFires 0] ->
       helloData c' = helloData c /\ lastUpdateTime c' = lastUpdateTime c).
Proof.
  eexists. eexists. split; [vm_compute; reflexivity|]. split; [vm_compute; reflexivity|].
  eapply (only_a_message_changes_the_data (H := sample_browser)
            [EsMessage 0 sample_payload "t1"] _ [EsError 0 (1 # 2); TimeoutFires 0]);
    vm_compute; reflexivity.
Defined.

Lemma backoff_budget_witness :
  exists c',
    failures (H := sample_browser) (repeat (1 # 2)%Q 11) (mount (H := sample_browser)) =
      Some c' /\
    connectionStatus c' = disconnected /\
    delays c' = backoffs 0 (take maxRetries (repeat (1 # 2)%Q 11)) /\
    length (timeouts c') = maxRetries /\
    Forall (fun x => exists d, x = Fin d) (delays c') /\
    (181000 <= total_delay c')%Q /\ (total_delay c' <= 191000)%Q.
Proof.
  apply (backoff_budget (H := sample_browser) (repeat (1 # 2)%Q 11)).
  - intros n. reflexivity.
  - reflexivity.
  - simpl. repeat (apply List.Forall_cons; [split; [discriminate|reflexivity]|]).
    apply List.Forall_nil.
Defined.
